(** * Smart Trip Planner agent (main.py): a shallow embedding

    The service has one endpoint, [POST /generate].  The handler composes a
    prompt, talks to a hosted model through a chat session, runs at most one
    call of the stub search tool, and validates the model's final text
    against the [Itinerary] schema.

    Conventions of the embedding:
    - a Python [str] is a [string]; its characters are read as the code
      points U+0000..U+00FF, on which [lower] is Python's [str.lower];
    - a JSON-like Python value ([None], [bool], [int], [float], [str],
      [list], [dict] with [str] keys) is a [json] tree; a dict keeps its
      insertion order, so it is an association list;
    - [os.environ] and the argument map of a function call are [gmap]s;
    - effects (prints and messages sent to the model) are recorded in a
      trace threaded by the monad [M], which also carries exceptions. *)

From Stdlib Require Import ZArith NArith Ascii String List Bool Lia.
From stdpp Require Import base option list strings pretty gmap.

Import ListNotations.
Set Warnings "-register-all".
Local Open Scope string_scope.
Local Open Scope list_scope.

(** ** Characters and strings *)

Definition dquote : ascii := "034"%char.
Definition newline : ascii := "010"%char.
Definition nl : string := String newline EmptyString.
Definition dq : string := String dquote EmptyString.

(** [str.lower] on one code point below U+0100: [A-Z] and the Latin-1
    capitals U+00C0..U+00DE (the multiplication sign U+00D7 apart) move up
    by 32, everything else is unchanged. *)
Definition lower_char (c : ascii) : ascii :=
  let n := N_of_ascii c in
  if ((65 <=? n) && (n <=? 90) ||
      (192 <=? n) && (n <=? 222) && negb (n =? 215))%N
  then ascii_of_N (n + 32)
  else c.

Fixpoint lower (s : string) : string :=
  match s with
  | EmptyString => EmptyString
  | String c s' => String (lower_char c) (lower s')
  end.

(** Python's [needle in hay] on strings. *)
Fixpoint contains (needle hay : string) : bool :=
  String.prefix needle hay ||
  match hay with
  | EmptyString => false
  | String _ hay' => contains needle hay'
  end.

(** [sep.join(parts)] *)
Fixpoint join (sep : string) (parts : list string) : string :=
  match parts with
  | [] => EmptyString
  | [p] => p
  | p :: ps => p +:+ sep +:+ join sep ps
  end.

(** ** JSON-like values and [json.dumps] *)

Inductive json : Type :=
| JNull
| JBool (b : bool)
| JInt (z : Z)
| JFloat (repr : string)   (* a float, named by the text [json.dumps] prints for it *)
| JStr (s : string)
| JList (l : list json)
| JDict (kvs : list (string * json)).

Definition hex_digit (n : N) : ascii :=
  if (n <? 10)%N then ascii_of_N (48 + n) else ascii_of_N (87 + n).

(** ['\\u{0:04x}'.format(n)] for a code point below U+0100. *)
Definition unicode_escape (c : ascii) : string :=
  let n := N_of_ascii c in
  "\u00" +:+ String (hex_digit (n / 16)) (String (hex_digit (n mod 16)) EmptyString).

(** One character of [py_encode_basestring_ascii] ([ensure_ascii=True]):
    the short escapes of [ESCAPE_DCT], everything outside [' '..'~'] as a
    [\uXXXX] escape, the rest as it is. *)
Definition escape_char (c : ascii) : string :=
  let n := N_of_ascii c in
  if (n =? 34)%N then String "092" dq
  else if (n =? 92)%N then "\\"
  else if (n =? 10)%N then "\n"
  else if (n =? 13)%N then "\r"
  else if (n =? 9)%N then "\t"
  else if (n =? 8)%N then "\b"
  else if (n =? 12)%N then "\f"
  else if ((n <? 32) || (126 <? n))%N then unicode_escape c
  else String c EmptyString.

Fixpoint escape (s : string) : string :=
  match s with
  | EmptyString => EmptyString
  | String c s' => escape_char c +:+ escape s'
  end.

Definition encode_basestring_ascii (s : string) : string :=
  dq +:+ escape s +:+ dq.

(** [json.dumps(obj)] with the default separators [", "] and [": "]. *)
Fixpoint json_dumps (j : json) : string :=
  match j with
  | JNull => "null"
  | JBool true => "true"
  | JBool false => "false"
  | JInt z => pretty z
  | JFloat r => r
  | JStr s => encode_basestring_ascii s
  | JList l => "[" +:+ join ", " (map json_dumps l) +:+ "]"
  | JDict kvs =>
      "{" +:+
      join ", " (map (fun kv => match kv with
                                 | (k, v) => encode_basestring_ascii k +:+ ": " +:+ json_dumps v
                                 end) kvs)
      +:+ "}"
  end.

(** Truthiness of a dict: [bool(d)] is [len(d) != 0]. *)
Definition dict_truthy (d : list (string * json)) : bool :=
  match d with
  | [] => false
  | _ :: _ => true
  end.

(** ** Exceptions, effects and the handler monad *)

Inductive exn : Type :=
| KeyError (key : string)
| IndexError
| AttributeError
| ValueError
| TypeError
| ValidationError
| ProviderError (msg : string)      (* any failure raised by the model client *)
| RuntimeError (msg : string)
| HTTPException (status_code : Z) (detail : string).

Record FunctionCall := { name : string; args : gmap string json }.

Inductive Part : Type :=
| Part_text (t : string)
| Part_function_call (fc : FunctionCall)
| Part_function_response (fname : string) (response : list (string * json)).

Record Content := { parts : list Part }.
Record Candidate := { content : Content }.

(** The reply of [chat.send_message]. *)
Record GenerateContentResponse := { candidates : list Candidate }.

Definition part_text (p : Part) : option string :=
  match p with
  | Part_text t => Some t
  | _ => None
  end.

(** [response.text], the client's quick accessor: it is computed from the
    parts of the reply.  It needs exactly one candidate with at least one
    part, every part a text part, and gives their texts joined by line
    breaks; otherwise it raises [ValueError]. *)
Definition text (response : GenerateContentResponse) : exn + string :=
  match candidates response with
  | [c] =>
      match parts (content c) with
      | [] => inl ValueError
      | ps =>
          match mapM part_text ps with
          | Some texts => inr (join nl texts)
          | None => inl ValueError
          end
      end
  | _ => inl ValueError
  end.

(** The two calls of [chat.send_message] in the handler: the prompt text as
    the positional argument (line 97), and a [Part] through the keyword
    [part] (lines 106-113). *)
Inductive outgoing : Type :=
| SendContent (prompt_text : string)
| SendPart (part : Part).

Inductive event : Type :=
| EvSearchBanner (query : json)   (* print(f"--- Performing web search for: {query} ---") *)
| EvSendMessage (m : outgoing)    (* chat.send_message(...) *)
| EvErrorLine (e : exn).          (* print(f"An error occurred: {e}") *)

(** The state threaded through a request: the messages of the current chat
    session and the trace of effects so far. *)
Record world := { session : list outgoing; trace : list event }.

Definition M (A : Type) : Type := world -> (exn + A) * world.

Definition ret {A} (a : A) : M A := fun w => (inr a, w).
Definition raise {A} (e : exn) : M A := fun w => (inl e, w).
Definition bind {A B} (m : M A) (k : A -> M B) : M B :=
  fun w => match m w with
           | (inl e, w') => (inl e, w')
           | (inr a, w') => k a w'
           end.
Definition emit (ev : event) : M unit :=
  fun w => (inr tt, {| session := session w; trace := trace w ++ [ev] |}).
Definition lift {A} (r : exn + A) : M A := fun w => (r, w).

(** [try: body except Exception as e: handler(e)] *)
Definition try_except {A} (body : M A) (handler : exn -> M A) : M A :=
  fun w => match body w with
           | (inl e, w') => handler e w'
           | (inr a, w') => (inr a, w')
           end.

Declare Scope py_scope.
Delimit Scope py_scope with py.
Notation "x <- c1 ;; c2" := (bind c1 (fun x => c2))
  (at level 100, c1 at next level, right associativity) : py_scope.
Notation "c1 ;;; c2" := (bind c1 (fun _ => c2))
  (at level 100, right associativity) : py_scope.

(** [l[0]] *)
Definition first_of {A} (l : list A) : M A :=
  match l with
  | [] => raise IndexError
  | x :: _ => ret x
  end.

(** [part.function_call]: reading the field of a part that carries no
    function call gives the empty call. *)
Definition function_call (p : Part) : FunctionCall :=
  match p with
  | Part_function_call fc => fc
  | _ => {| name := EmptyString; args := ∅ |}
  end.

(** [args['query']] *)
Definition getitem (m : gmap string json) (k : string) : M json :=
  match m !! k with
  | Some v => ret v
  | None => raise (KeyError k)
  end.

(** [query.lower()]: only a [str] has the method. *)
Definition str_lower (v : json) : M string :=
  match v with
  | JStr s => ret (lower s)
  | _ => raise AttributeError
  end.

(** ** The search tool *)

Definition kyoto_results : json :=
  JDict [("results",
          JList [JDict [("name", JStr "Kikunoi Roan"); ("rating", JFloat "4.5"); ("type", JStr "Kaiseki")];
                 JDict [("name", JStr "Gogyo Ramen"); ("rating", JFloat "4.3"); ("type", JStr "Ramen")]])].

Definition no_information : json :=
  JDict [("results", JStr "No real-time information found for this query.")].

Definition perform_web_search (query : json) : M string :=
  (emit (EvSearchBanner query) ;;;
   lowered <- str_lower query ;;
   if contains "restaurants in Kyoto" lowered
   then ret (json_dumps kyoto_results)
   else ret (json_dumps no_information))%py.

(** ** Schema definitions *)

Record ItineraryRequest := {
  prompt : string;
  history : list (list (string * json));
  currentItinerary : option (list (string * json))
}.

Record ItineraryItem := { time : string; activity : string; location : string }.
Record Day := { date : string; summary : string; items : list ItineraryItem }.
Record Itinerary := { title : string; startDate : string; endDate : string; days : list Day }.

(** Lookup of a key in a decoded JSON object; of two entries with one key
    the later one counts, as in a Python dict built from the text. *)
Fixpoint dict_get (k : string) (kvs : list (string * json)) : option json :=
  match kvs with
  | [] => None
  | (k', v) :: rest =>
      match dict_get k rest with
      | Some v' => Some v'
      | None => if String.eqb k k' then Some v else None
      end
  end.

Definition as_str (j : json) : option string :=
  match j with JStr s => Some s | _ => None end.
Definition as_list (j : json) : option (list json) :=
  match j with JList l => Some l | _ => None end.
Definition as_dict (j : json) : option (list (string * json)) :=
  match j with JDict kvs => Some kvs | _ => None end.

(** A required field of type [str]. *)
Definition str_field (k : string) (o : list (string * json)) : option string :=
  j ← dict_get k o; as_str j.

(** A required field of type [List[T]], [T] validated by [elem]. *)
Definition list_field {T} (elem : json -> option T) (k : string)
    (o : list (string * json)) : option (list T) :=
  j ← dict_get k o; l ← as_list j; mapM elem l.

(** Validation of a decoded JSON value against each model: every declared
    field is required and must have its declared type; keys that the model
    does not declare are ignored. *)
Definition validate_ItineraryItem (j : json) : option ItineraryItem :=
  o ← as_dict j;
  t ← str_field "time" o;
  a ← str_field "activity" o;
  l ← str_field "location" o;
  Some {| time := t; activity := a; location := l |}.

Definition validate_Day (j : json) : option Day :=
  o ← as_dict j;
  d ← str_field "date" o;
  s ← str_field "summary" o;
  its ← list_field validate_ItineraryItem "items" o;
  Some {| date := d; summary := s; items := its |}.

Definition validate_Itinerary (j : json) : option Itinerary :=
  o ← as_dict j;
  t ← str_field "title" o;
  sd ← str_field "startDate" o;
  ed ← str_field "endDate" o;
  ds ← list_field validate_Day "days" o;
  Some {| title := t; startDate := sd; endDate := ed; days := ds |}.

(** Validation of a decoded request body against [ItineraryRequest]
    (lines 14-17): [prompt] is required and must be text; [history] may be
    absent (then it is the empty list) and otherwise must be a list of
    objects; [currentItinerary] may be absent or null (then it is [None]) and
    otherwise must be an object.  Other keys are ignored. *)
Definition validate_history (o : list (string * json)) :
    option (list (list (string * json))) :=
  match dict_get "history" o with
  | None => Some []
  | Some v => l ← as_list v; mapM as_dict l
  end.

Definition validate_currentItinerary (o : list (string * json)) :
    option (option (list (string * json))) :=
  match dict_get "currentItinerary" o with
  | None => Some None
  | Some JNull => Some None
  | Some v => d ← as_dict v; Some (Some d)
  end.

Definition validate_ItineraryRequest (j : json) : option ItineraryRequest :=
  o ← as_dict j;
  p ← str_field "prompt" o;
  h ← validate_history o;
  c ← validate_currentItinerary o;
  Some {| prompt := p; history := h; currentItinerary := c |}.

(** Serialization of the models, field by field in declaration order. *)
Definition dump_ItineraryItem (i : ItineraryItem) : json :=
  JDict [("time", JStr (time i)); ("activity", JStr (activity i));
         ("location", JStr (location i))].

Definition dump_Day (d : Day) : json :=
  JDict [("date", JStr (date d)); ("summary", JStr (summary d));
         ("items", JList (map dump_ItineraryItem (items d)))].

Definition model_dump (it : Itinerary) : json :=
  JDict [("title", JStr (title it)); ("startDate", JStr (startDate it));
         ("endDate", JStr (endDate it));
         ("days", JList (map dump_Day (days it)))].

(** ** The prompt *)

Definition prompt_head : string :=
  nl +:+
  "    You are an expert travel agent. Your task is to generate a detailed, day-by-day travel itinerary." +:+ nl +:+
  "    The user's request is: " +:+ dq.

Definition prompt_middle : string :=
  dq +:+ nl +:+
  nl +:+
  "    If a previous itinerary is provided, modify it based on the user's request." +:+ nl +:+
  "    Previous itinerary: ".

Definition prompt_tail : string :=
  nl +:+
  nl +:+
  "    You have access to a web search tool to find real-time information like popular restaurants or opening hours. Use it if necessary." +:+ nl +:+
  nl +:+
  "    You **must** respond with only a valid JSON object that conforms to the required schema." +:+ nl +:+
  "    Do not include any other text, explanations, or markdown formatting like ```json." +:+ nl +:+
  "    Your response must be the raw JSON object." +:+ nl +:+
  "    ".

(** An [Optional[Dict[str, Any]]] as a value, and its truthiness. *)
Definition optional_dict (o : option (list (string * json))) : json :=
  match o with
  | None => JNull
  | Some d => JDict d
  end.

Definition truthy (o : option (list (string * json))) : bool :=
  match o with
  | None => false
  | Some d => dict_truthy d
  end.

(** [json.dumps(request.currentItinerary) if request.currentItinerary else 'None'] *)
Definition previous_itinerary (request : ItineraryRequest) : string :=
  if truthy (currentItinerary request)
  then json_dumps (optional_dict (currentItinerary request))
  else "None".

(** The f-string of [generate_itinerary]. *)
Definition compose_prompt (request : ItineraryRequest) : string :=
  prompt_head +:+ prompt request +:+ prompt_middle +:+
  previous_itinerary request +:+ prompt_tail.

(** ** A reference JSON text decoder

    The service takes the decoder of its validation library as a parameter;
    this one runs the model on concrete texts.  It reads RFC 8259 JSON:
    insignificant white space, the three literals, numbers (an integer
    lexeme becomes [JInt], any other number keeps its lexeme), strings with
    their escapes (a [\uXXXX] escape below U+0100), arrays and objects. *)

Definition is_ws (c : ascii) : bool :=
  let n := N_of_ascii c in
  ((n =? 32) || (n =? 9) || (n =? 10) || (n =? 13))%N.

Fixpoint skip_ws (s : string) : string :=
  match s with
  | String c s' => if is_ws c then skip_ws s' else s
  | EmptyString => s
  end.

Definition is_digit (c : ascii) : bool :=
  let n := N_of_ascii c in ((48 <=? n) && (n <=? 57))%N.

Definition hex_value (c : ascii) : option N :=
  let n := N_of_ascii c in
  if ((48 <=? n) && (n <=? 57))%N then Some (n - 48)%N
  else if ((97 <=? n) && (n <=? 102))%N then Some (n - 87)%N
  else if ((65 <=? n) && (n <=? 70))%N then Some (n - 55)%N
  else None.

(** The character named by the four hex digits of a [\u] escape. *)
Definition unescape_unicode (a b c d : ascii) : option ascii :=
  match hex_value a, hex_value b, hex_value c, hex_value d with
  | Some 0%N, Some 0%N, Some h, Some l => Some (ascii_of_N (16 * h + l))
  | _, _, _, _ => None
  end.

Definition unescape_short (e : ascii) : option ascii :=
  let n := N_of_ascii e in
  if (n =? 34)%N then Some dquote
  else if (n =? 92)%N then Some "092"%char
  else if (n =? 47)%N then Some "/"%char
  else if (n =? 98)%N then Some "008"%char
  else if (n =? 102)%N then Some "012"%char
  else if (n =? 110)%N then Some "010"%char
  else if (n =? 114)%N then Some "013"%char
  else if (n =? 116)%N then Some "009"%char
  else None.

(** The rest of a string literal after its opening quote: the decoded text
    and what follows the closing quote. *)
Fixpoint read_string (s : string) : option (string * string) :=
  match s with
  | EmptyString => None
  | String c s1 =>
      if (N_of_ascii c =? 34)%N then Some (EmptyString, s1)
      else if (N_of_ascii c =? 92)%N then
        match s1 with
        | EmptyString => None
        | String e s2 =>
            if (N_of_ascii e =? 117)%N then
              match s2 with
              | String h1 (String h2 (String h3 (String h4 s3))) =>
                  match unescape_unicode h1 h2 h3 h4, read_string s3 with
                  | Some u, Some (t, r) => Some (String u t, r)
                  | _, _ => None
                  end
              | _ => None
              end
            else
              match unescape_short e, read_string s2 with
              | Some u, Some (t, r) => Some (String u t, r)
              | _, _ => None
              end
        end
      else if (N_of_ascii c <? 32)%N then None
      else
        match read_string s1 with
        | Some (t, r) => Some (String c t, r)
        | None => None
        end
  end.

Definition is_number_char (c : ascii) : bool :=
  let n := N_of_ascii c in
  (is_digit c || (n =? 45) || (n =? 43) || (n =? 46) || (n =? 101) || (n =? 69))%N.

(** The longest prefix of number characters, and the rest. *)
Fixpoint span_number (s : string) : string * string :=
  match s with
  | String c s' =>
      if is_number_char c
      then let '(lex, r) := span_number s' in (String c lex, r)
      else (EmptyString, s)
  | EmptyString => (EmptyString, s)
  end.

Fixpoint digits_value (acc : Z) (s : string) : option Z :=
  match s with
  | EmptyString => Some acc
  | String c s' =>
      if is_digit c
      then digits_value (10 * acc + Z.of_N (N_of_ascii c - 48)) s'
      else None
  end.

Fixpoint span_digits (s : string) : string * string :=
  match s with
  | String c s' =>
      if is_digit c
      then let '(ds, r) := span_digits s' in (String c ds, r)
      else (EmptyString, s)
  | EmptyString => (EmptyString, s)
  end.

(** The integer part of a number: [0], or digits that do not start with [0]. *)
Definition integer_part_ok (ds : string) : bool :=
  match ds with
  | EmptyString => false
  | String "0" (String _ _) => false
  | _ => true
  end.

(** An optional fraction: a dot and at least one digit. *)
Definition skip_fraction (s : string) : option string :=
  match s with
  | String "." f =>
      match span_digits f with
      | (EmptyString, _) => None
      | (_, r) => Some r
      end
  | _ => Some s
  end.

(** An optional exponent: [e] or [E], an optional sign, at least one digit. *)
Definition skip_exponent (s : string) : option string :=
  match s with
  | String c e =>
      if ((N_of_ascii c =? 101) || (N_of_ascii c =? 69))%N then
        let digits := match e with
                      | String "+" d => d
                      | String "-" d => d
                      | _ => e
                      end in
        match span_digits digits with
        | (EmptyString, _) => None
        | (_, r) => Some r
        end
      else Some s
  | EmptyString => Some s
  end.

(** A number lexeme: an integer becomes [JInt]; a number with a fraction
    or an exponent keeps its lexeme. *)
Definition number_value (lex : string) : option json :=
  let '(neg, body) :=
    match lex with
    | String "-" b => (true, b)
    | _ => (false, lex)
    end in
  let '(ds, r) := span_digits body in
  if integer_part_ok ds then
    match r with
    | EmptyString =>
        (fun z : Z => JInt (if neg then (- z)%Z else z)) <$> digits_value 0 ds
    | _ =>
        r1 ← skip_fraction r;
        r2 ← skip_exponent r1;
        match r2 with
        | EmptyString => Some (JFloat lex)
        | _ => None
        end
    end
  else None.

(** What follows the prefix [p] in [s], when [s] starts with [p]. *)
Fixpoint strip_prefix (p s : string) : option string :=
  match p with
  | EmptyString => Some s
  | String a p' =>
      match s with
      | String b s' => if Ascii.eqb a b then strip_prefix p' s' else None
      | EmptyString => None
      end
  end.

Definition read_literal (lit : string) (v : json) (s : string) : option (json * string) :=
  r ← strip_prefix lit s; Some (v, r).

(** The text after the next significant character when that character is
    [c]. *)
Definition next_is (c : ascii) (s : string) : option string :=
  match skip_ws s with
  | String c' r => if Ascii.eqb c c' then Some r else None
  | EmptyString => None
  end.

(** Values, the items of an array after its bracket, and the members of an
    object after its brace; [fuel] bounds the number of nested calls. *)
Fixpoint read_value (fuel : nat) (s : string) : option (json * string) :=
  match fuel with
  | O => None
  | S fuel' =>
      match skip_ws s with
      | EmptyString => None
      | String c rest =>
          let n := N_of_ascii c in
          if (n =? 34)%N then
            '(t, r) ← read_string rest; Some (JStr t, r)
          else if (n =? 91)%N then
            match next_is "]" rest with
            | Some r => Some (JList [], r)
            | None => '(l, r) ← read_items fuel' rest; Some (JList l, r)
            end
          else if (n =? 123)%N then
            match next_is "}" rest with
            | Some r => Some (JDict [], r)
            | None => '(kvs, r) ← read_members fuel' rest; Some (JDict kvs, r)
            end
          else if (n =? 110)%N then read_literal "null" JNull (String c rest)
          else if (n =? 116)%N then read_literal "true" (JBool true) (String c rest)
          else if (n =? 102)%N then read_literal "false" (JBool false) (String c rest)
          else
            let '(lex, r) := span_number (String c rest) in
            v ← number_value lex; Some (v, r)
      end
  end
with read_items (fuel : nat) (s : string) : option (list json * string) :=
  match fuel with
  | O => None
  | S fuel' =>
      '(v, r) ← read_value fuel' s;
      match next_is "," r with
      | Some r' => '(l, r'') ← read_items fuel' r'; Some (v :: l, r'')
      | None =>
          match next_is "]" r with
          | Some r' => Some ([v], r')
          | None => None
          end
      end
  end
with read_members (fuel : nat) (s : string) : option (list (string * json) * string) :=
  match fuel with
  | O => None
  | S fuel' =>
      r0 ← next_is dquote s;
      '(k, r1) ← read_string r0;
      r2 ← next_is ":" r1;
      '(v, r3) ← read_value fuel' r2;
      match next_is "," r3 with
      | Some r4 => '(kvs, r5) ← read_members fuel' r4; Some ((k, v) :: kvs, r5)
      | None =>
          match next_is "}" r3 with
          | Some r4 => Some ([(k, v)], r4)
          | None => None
          end
      end
  end.

(** A whole text: one value, then only white space.

    This decoder is not the validation library's own: it is a decoder for
    the JSON texts that [json_dumps] writes, over strings of code points up
    to U+00FF.  It refuses some texts that the library accepts (an escape
    [\uXXXX] of a code point above U+00FF, the numbers [NaN] and
    [Infinity]) and it has no limit on nesting.  The service is
    parameterised by its decoder ([json_loads] below); this one is used
    where a concrete decoder is run, and where a text written by
    [json_dumps] is read back. *)
Definition reference_json_loads (s : string) : option json :=
  '(v, r) ← read_value (S (String.length s)) s;
  match skip_ws r with
  | EmptyString => Some v
  | _ => None
  end.

(** ** The request handler *)

Definition failure_detail : string := "Failed to generate a valid itinerary.".

Section Service.

(** The JSON text decoder of the validation library. *)
Variable json_loads : string -> option json.

(** The hosted model behind the client: its answer (or the exception the
    client raises) to the messages sent so far in a session. *)
Variable model : list outgoing -> exn + GenerateContentResponse.

(** [Itinerary.model_validate_json(text)] *)
Definition model_validate_json (s : string) : M Itinerary :=
  match (j ← json_loads s; validate_Itinerary j) with
  | Some it => ret it
  | None => raise ValidationError
  end.

(** [chat = model.start_chat()] *)
Definition start_chat : M unit :=
  fun w => (inr tt, {| session := []; trace := trace w |}).

(** [chat.send_message(...)].  The client's method takes the message as its
    positional parameter [content] and has no parameter [part]: the call of
    line 97 sends the prompt and returns the model's reply; the call of
    lines 106-113 is refused with [TypeError] before anything is sent. *)
Definition send_message (m : outgoing) : M GenerateContentResponse :=
  match m with
  | SendContent _ =>
      fun w =>
        let s := session w ++ [m] in
        (model s, {| session := s; trace := trace w ++ [EvSendMessage m] |})
  | SendPart _ => raise TypeError
  end.

(** The wrapped tool result that line 106 passes to [send_message]. *)
Definition tool_response (search_results : string) : outgoing :=
  SendPart (Part_function_response "perform_web_search"
              [("content", JStr search_results)]).

(** Lines 116-117: take the reply's text and validate it. *)
Definition final_answer (response : GenerateContentResponse) : M Itinerary :=
  (final_json_str <- lift (text response) ;;
   model_validate_json final_json_str)%py.

(** Lines 102-113: one round of the tool. *)
Definition tool_round (fc : FunctionCall) : M GenerateContentResponse :=
  (query <- getitem (args fc) "query" ;;
   search_results <- perform_web_search query ;;
   send_message (tool_response search_results))%py.

(** The body of the [try] block. *)
Definition exchange (prompt_text : string) : M Itinerary :=
  (response <- send_message (SendContent prompt_text) ;;
   candidate <- first_of (candidates response) ;;
   part <- first_of (parts (content candidate)) ;;
   let fc := function_call part in
   response <-
     (if String.eqb (name fc) "perform_web_search"
      then tool_round fc
      else ret response) ;;
   final_answer response)%py.

(** [try: body except Exception as e: print(...); raise HTTPException(...)] *)
Definition guarded (body : M Itinerary) : M Itinerary :=
  try_except body
    (fun e =>
       emit (EvErrorLine e) ;;;
       raise (HTTPException 500 failure_detail))%py.

Definition generate_itinerary (request : ItineraryRequest) : M Itinerary :=
  (start_chat ;;; guarded (exchange (compose_prompt request)))%py.

(** What the caller of [POST /generate] receives. *)
Inductive http_response : Type :=
| Response (status : Z) (body : json).

(** The framework around the handler: a returned model is serialized with
    status 200, an [HTTPException] becomes its status and detail, any other
    exception is the framework's own internal server error. *)
Definition respond (r : exn + Itinerary) : http_response :=
  match r with
  | inr it => Response 200 (model_dump it)
  | inl (HTTPException status detail) => Response status (JDict [("detail", JStr detail)])
  | inl _ => Response 500 (JStr "Internal Server Error")
  end.

Definition initial_world : world := {| session := []; trace := [] |}.

(** The response to a request that has reached the handler, that is,
    whose body the framework has validated against [ItineraryRequest]. *)
Definition post_generate (request : ItineraryRequest) : http_response :=
  respond (fst (generate_itinerary request initial_world)).

(** The framework's description of the validation errors of a body, the
    detail of its 422 response. *)
Variable request_errors : json -> json.

(** [POST /generate] with a JSON body (line 67 and the parameter of line
    68): the framework validates the body first; a body that fails gets
    status 422 and the handler does not run. *)
Definition endpoint (body : json) : http_response :=
  match validate_ItineraryRequest body with
  | Some request => post_generate request
  | None => Response 422 (JDict [("detail", request_errors body)])
  end.

End Service.

(** ** Start-up *)

Definition api_key_variable : string := "GOOGLE_API_KEY".

(** [os.environ[k]] *)
Definition environ_get (environ : gmap string string) (k : string) : exn + string :=
  match environ !! k with
  | Some v => inr v
  | None => inl (KeyError k)
  end.

(** The configured client once the module has been loaded. *)
Record service := { api_key : string }.

(** The module-level [try: genai.configure(api_key=os.environ[...])
    except KeyError: raise RuntimeError(...)]. *)
Definition load_module (environ : gmap string string) : exn + service :=
  match environ_get environ api_key_variable with
  | inr k => inr {| api_key := k |}
  | inl (KeyError _) => inl (RuntimeError "GOOGLE_API_KEY environment variable not set.")
  | inl e => inl e
  end.

(** A process serves a request only after its module has loaded. *)
Definition serve (json_loads : string -> option json)
    (model : list outgoing -> exn + GenerateContentResponse)
    (environ : gmap string string) (request : ItineraryRequest)
    : exn + http_response :=
  match load_module environ with
  | inl e => inl e
  | inr _ => inr (post_generate json_loads model request)
  end.

(** ** Words of the specification *)

(** "contains the substring, case-insensitive" *)
Definition contains_ignoring_case (needle hay : string) : bool :=
  contains (lower needle) (lower hay).

(** "title, startDate, endDate all text and days a list of Day records" *)
Definition has_text (k : string) (o : list (string * json)) : bool :=
  match dict_get k o with
  | Some (JStr _) => true
  | _ => false
  end.

Definition has_list (elem : json -> bool) (k : string) (o : list (string * json)) : bool :=
  match dict_get k o with
  | Some (JList l) => forallb elem l
  | _ => false
  end.

Definition is_item_record (j : json) : bool :=
  match j with
  | JDict o => has_text "time" o && has_text "activity" o && has_text "location" o
  | _ => false
  end.

Definition is_day_record (j : json) : bool :=
  match j with
  | JDict o => has_text "date" o && has_text "summary" o && has_list is_item_record "items" o
  | _ => false
  end.

Definition is_itinerary_record (j : json) : bool :=
  match j with
  | JDict o =>
      has_text "title" o && has_text "startDate" o && has_text "endDate" o &&
      has_list is_day_record "days" o
  | _ => false
  end.

(** "The JSON value spells the itinerary": the object carries each field
    of the record under the field's name, text as text, lists element by
    element. *)
Definition item_of (j : json) (i : ItineraryItem) : Prop :=
  exists o, j = JDict o /\
    dict_get "time" o = Some (JStr (time i)) /\
    dict_get "activity" o = Some (JStr (activity i)) /\
    dict_get "location" o = Some (JStr (location i)).

Definition day_of (j : json) (d : Day) : Prop :=
  exists o l, j = JDict o /\
    dict_get "date" o = Some (JStr (date d)) /\
    dict_get "summary" o = Some (JStr (summary d)) /\
    dict_get "items" o = Some (JList l) /\
    Forall2 item_of l (items d).

Definition itinerary_of (j : json) (it : Itinerary) : Prop :=
  exists o l, j = JDict o /\
    dict_get "title" o = Some (JStr (title it)) /\
    dict_get "startDate" o = Some (JStr (startDate it)) /\
    dict_get "endDate" o = Some (JStr (endDate it)) /\
    dict_get "days" o = Some (JList l) /\
    Forall2 day_of l (days it).

(** "The body spells the request": an object with the prompt as text
    under [prompt], the history as a list of objects under [history] (or no
    such key, for the empty history), and the current itinerary as an object
    under [currentItinerary] (or null, or no such key, for none). *)
Definition request_of (j : json) (r : ItineraryRequest) : Prop :=
  exists o, j = JDict o /\
    dict_get "prompt" o = Some (JStr (prompt r)) /\
    match dict_get "history" o with
    | None => history r = []
    | Some v => v = JList (map JDict (history r))
    end /\
    match dict_get "currentItinerary" o with
    | None => currentItinerary r = None
    | Some JNull => currentItinerary r = None
    | Some v => exists d, v = JDict d /\ currentItinerary r = Some d
    end.

(** Numbers of tool runs and of messages in a trace. *)
Definition is_search (ev : event) : bool :=
  match ev with EvSearchBanner _ => true | _ => false end.
Definition is_send (ev : event) : bool :=
  match ev with EvSendMessage _ => true | _ => false end.
Definition is_tool_reply (ev : event) : bool :=
  match ev with EvSendMessage (SendPart (Part_function_response _ _)) => true | _ => false end.

Fixpoint count (p : event -> bool) (tr : list event) : nat :=
  match tr with
  | [] => 0
  | ev :: tr' => (if p ev then 1 else 0) + count p tr'
  end.

(** The world after one message has been sent in the session. *)
Definition after_send (m : outgoing) (w : world) : world :=
  {| session := session w ++ [m]; trace := trace w ++ [EvSendMessage m] |}.

(** The world after the error line of the [except] clause. *)
Definition after_error (e : exn) (w : world) : world :=
  {| session := session w; trace := trace w ++ [EvErrorLine e] |}.

(** The body of every failure response. *)
Definition failure_body : json := JDict [("detail", JStr failure_detail)].

(** The marker text as it is written on the wire. *)
Definition no_information_text : string :=
  "{" +:+ dq +:+ "results" +:+ dq +:+ ": " +:+ dq +:+
  "No real-time information found for this query." +:+ dq +:+ "}".

(** Occurrence of a character in a string. *)
Fixpoint occurs (c : ascii) (s : string) : bool :=
  match s with
  | EmptyString => false
  | String c' s' => Ascii.eqb c c' || occurs c s'
  end.

(** The world after the banner of one tool run. *)
Definition after_search (query : json) (w : world) : world :=
  {| session := session w; trace := trace w ++ [EvSearchBanner query] |}.

(** The first content part of the first candidate of a reply, when there
    is one. *)
Definition first_part (resp : GenerateContentResponse) : option Part :=
  match candidates resp with
  | [] => None
  | c :: _ =>
      match parts (content c) with
      | [] => None
      | p :: _ => Some p
      end
  end.

(** "The final reply" of a request whose prompt is [p_text], in the words
    of the specification: the first reply when its first part asks for no
    tool, and the reply that the model would give to the tool result when it
    asks for the search tool with a text query.  (The handler never obtains
    a reply of the second kind, since its call that sends the tool result is
    refused; the notion is kept as wide as the specification has it.) *)
Inductive final_reply (model : list outgoing -> exn + GenerateContentResponse)
    (p_text : string) : GenerateContentResponse -> Prop :=
| final_direct resp p :
    model [SendContent p_text] = inr resp ->
    first_part resp = Some p ->
    name (function_call p) <> "perform_web_search" ->
    final_reply model p_text resp
| final_after_tool resp1 p q w search_results resp :
    model [SendContent p_text] = inr resp1 ->
    first_part resp1 = Some p ->
    name (function_call p) = "perform_web_search" ->
    args (function_call p) !! "query" = Some (JStr q) ->
    fst (perform_web_search (JStr q) w) = inr search_results ->
    model [SendContent p_text; tool_response search_results] = inr resp ->
    final_reply model p_text resp.

(** Values without numbers: [None], booleans, strings, and lists and dicts
    of such values. *)
Fixpoint textual (j : json) : bool :=
  match j with
  | JNull | JBool _ | JStr _ => true
  | JInt _ | JFloat _ => false
  | JList l => forallb textual l
  | JDict kvs => forallb (fun kv => match kv with (_, v) => textual v end) kvs
  end.

(** Fuel that is enough for the decoder to read the text of a value. *)
Fixpoint need (j : json) : nat :=
  match j with
  | JList l => S (list_sum (map (fun v => S (need v)) l))
  | JDict kvs => S (list_sum (map (fun kv => match kv with (_, v) => S (need v) end) kvs))
  | _ => 1
  end.

(** One member of an object as [json.dumps] writes it. *)
Definition member_text (kv : string * json) : string :=
  match kv with
  | (k, v) => encode_basestring_ascii k +:+ ": " +:+ json_dumps v
  end.

(** The decoder reads the text of [v] back, whatever follows it. *)
Definition reads (v : json) : Prop :=
  forall fuel rest, need v <= fuel ->
    read_value fuel (json_dumps v +:+ rest) = Some (v, rest).

(** ** Sample data *)

Definition sample_itinerary : Itinerary :=
  {| title := "Kyoto 2-Day Trip";
     startDate := "2025-04-10";
     endDate := "2025-04-11";
     days := [ {| date := "2025-04-10";
                  summary := "Fushimi Inari & Gion";
                  items := [ {| time := "09:00";
                                activity := "Climb Fushimi Inari Shrine";
                                location := "34.9671,135.7727" |} ] |} ] |}.

Definition sample_request : ItineraryRequest :=
  {| prompt := "Plan 2 days in Kyoto"; history := []; currentItinerary := None |}.

Definition sample_request_with_history : ItineraryRequest :=
  {| prompt := "Plan 2 days in Kyoto";
     history := [[("role", JStr "user"); ("text", JStr "Hello")]];
     currentItinerary := None |}.

Definition empty_itinerary_request : ItineraryRequest :=
  {| prompt := "Plan 2 days in Kyoto"; history := []; currentItinerary := Some [] |}.

Definition text_reply (t : string) : GenerateContentResponse :=
  {| candidates := [ {| content := {| parts := [Part_text t] |} |} ] |}.

Definition tool_request (arguments : gmap string json) : GenerateContentResponse :=
  {| candidates :=
       [ {| content :=
              {| parts := [Part_function_call
                             {| name := "perform_web_search"; args := arguments |}] |} |} ] |}.

(** A model that answers the prompt at once with the text [t]. *)
Definition model_direct (t : string) (sent : list outgoing) : exn + GenerateContentResponse :=
  inr (text_reply t).

(** A model that first asks for the search tool with [arguments] and then
    answers with the text [t]. *)
Definition model_tool (arguments : gmap string json) (t : string)
    (sent : list outgoing) : exn + GenerateContentResponse :=
  match sent with
  | [_] => inr (tool_request arguments)
  | _ => inr (text_reply t)
  end.

(** A model that asks for a tool the service does not have, with the
    itinerary text in a second part of the same reply. *)
Definition other_call : FunctionCall :=
  {| name := "book_hotel"; args := {[ "city" := JStr "Kyoto" ]} |}.

Definition other_call_reply (t : string) : GenerateContentResponse :=
  {| candidates :=
       [ {| content := {| parts := [Part_function_call other_call; Part_text t] |} |} ] |}.

Definition model_other_call (t : string) (sent : list outgoing) :
    exn + GenerateContentResponse :=
  inr (other_call_reply t).

(** A model whose client fails on every message. *)
Definition model_down (sent : list outgoing) : exn + GenerateContentResponse :=
  inl (ProviderError "503 Service Unavailable").

Definition sample_text : string := json_dumps (model_dump sample_itinerary).

Definition kyoto_query : string := "Best restaurants in Kyoto".

(** The previous-itinerary slot as the specification words it: the JSON
    text whenever [currentItinerary] is present, [None] when it is absent. *)
Definition claimed_previous_itinerary (request : ItineraryRequest) : string :=
  match currentItinerary request with
  | Some d => json_dumps (JDict d)
  | None => "None"
  end.

(** The response of every failed request. *)
Definition generic_failure : http_response := Response 500 failure_body.

Definition startup_error : exn :=
  RuntimeError "GOOGLE_API_KEY environment variable not set.".

Definition no_environment : gmap string string := ∅.

(** ** Further vocabulary *)

(** The messages of a trace, in order. *)
Fixpoint sent (tr : list event) : list outgoing :=
  match tr with
  | [] => []
  | EvSendMessage m :: tr' => m :: sent tr'
  | _ :: tr' => sent tr'
  end.

Definition is_error_line (ev : event) : bool :=
  match ev with EvErrorLine _ => true | _ => false end.

(** The declared fields of the three output models. *)
Definition ItineraryItem_fields : list string := ["time"; "activity"; "location"].
Definition Day_fields : list string := ["date"; "summary"; "items"].
Definition Itinerary_fields : list string := ["title"; "startDate"; "endDate"; "days"].

Definition keys (j : json) : list string :=
  match j with
  | JDict kvs => map fst kvs
  | _ => []
  end.

(** Printable ASCII, [' '..'~']. *)
Definition printable_char (c : ascii) : bool :=
  let n := N_of_ascii c in ((32 <=? n) && (n <=? 126))%N.

Fixpoint printable (s : string) : bool :=
  match s with
  | EmptyString => true
  | String c s' => printable_char c && printable s'
  end.

(** Every float of the value prints as printable ASCII (as [repr] does). *)
Fixpoint floats_printable (j : json) : bool :=
  match j with
  | JFloat r => printable r
  | JList l => forallb floats_printable l
  | JDict kvs => forallb (fun kv => match kv with (_, v) => floats_printable v end) kvs
  | _ => true
  end.

(** More sample data. *)

Definition noisy_itinerary_object : list (string * json) :=
  [("days", JList []); ("notes", JInt 3); ("title", JStr "old");
   ("endDate", JStr "2025-04-11"); ("title", JStr "Kyoto");
   ("startDate", JStr "2025-04-10")].

Definition plain_itinerary_object : list (string * json) :=
  [("title", JStr "Kyoto"); ("startDate", JStr "2025-04-10");
   ("endDate", JStr "2025-04-11"); ("days", JList [])].

Definition broken_day_object : list (string * json) :=
  [("date", JStr "2025-04-10"); ("summary", JStr "Gion");
   ("items", JList [JDict [("time", JStr "09:00"); ("activity", JStr "Walk")]])].

Definition broken_itinerary_object : list (string * json) :=
  [("title", JStr "Kyoto"); ("startDate", JStr "2025-04-10");
   ("endDate", JStr "2025-04-11");
   ("days", JList [dump_Day {| date := "2025-04-10"; summary := "Gion"; items := [] |};
                   JDict broken_day_object])].

Definition sample_itinerary_dict : list (string * json) :=
  [("title", JStr "Kyoto 2-Day Trip"); ("budget", JInt 1200); ("rating", JFloat "4.5");
   ("days", JList [])].

Definition edit_request : ItineraryRequest :=
  {| prompt := "Add a tea ceremony";
     history := [];
     currentItinerary := Some plain_itinerary_object |}.

Definition numeric_edit_request : ItineraryRequest :=
  {| prompt := "Add a tea ceremony";
     history := [];
     currentItinerary := Some sample_itinerary_dict |}.

Definition edit_request_with_history : ItineraryRequest :=
  {| prompt := "Add a tea ceremony";
     history := [[("role", JStr "user"); ("text", JStr "Plan 2 days in Kyoto")]];
     currentItinerary := Some plain_itinerary_object |}.

(** Request bodies: one with an undeclared key, one whose prompt is a
    number. *)
Definition sample_body : json :=
  JDict [("prompt", JStr "Plan 2 days in Kyoto"); ("user", JStr "u1")].

Definition numeric_prompt_body : json :=
  JDict [("prompt", JInt 5); ("history", JList [])].

Definition no_errors (body : json) : json := JList [].

(** * Properties *)

(** ** Strings *)

Lemma prefix_occurs (c : ascii) (p s : string) :
  String.prefix p s = true -> occurs c p = true -> occurs c s = true.
Proof.
  revert s. induction p as [|a p IH]; intros s Hp Hc; [discriminate|].
  destruct s as [|b s]; [discriminate|].
  simpl in Hp. destruct (ascii_dec a b) as [->|]; [|discriminate].
  simpl in *. destruct (Ascii.eqb c b); [reflexivity|].
  simpl in *. eauto.
Qed.

Lemma contains_occurs (c : ascii) (needle hay : string) :
  contains needle hay = true -> occurs c needle = true -> occurs c hay = true.
Proof.
  induction hay as [|b hay IH]; intros H Hc.
  - cbn [contains] in H. rewrite orb_false_r in H.
    apply (prefix_occurs c _ _ H Hc).
  - cbn [contains] in H. apply orb_true_iff in H as [H|H].
    + apply (prefix_occurs c _ _ H Hc).
    + simpl. rewrite (IH H Hc). apply orb_true_r.
Qed.

Lemma lower_char_not_K (c : ascii) : Ascii.eqb "K" (lower_char c) = false.
Proof. destruct c as [[] [] [] [] [] [] [] []]; reflexivity. Qed.

Lemma lower_has_no_K (s : string) : occurs "K" (lower s) = false.
Proof.
  induction s as [|c s IH]; [reflexivity|].
  cbn [lower occurs]. now rewrite lower_char_not_K, IH.
Qed.

Lemma literal_never_in_lowered (q : string) :
  contains "restaurants in Kyoto" (lower q) = false.
Proof.
  destruct (contains "restaurants in Kyoto" (lower q)) eqn:E; [|reflexivity].
  pose proof (contains_occurs "K" _ _ E eq_refl) as H.
  now rewrite lower_has_no_K in H.
Qed.

(** ** The search tool *)

Lemma perform_web_search_str (q : string) (w : world) :
  perform_web_search (JStr q) w =
  (inr (json_dumps no_information), after_search (JStr q) w).
Proof.
  unfold perform_web_search, bind, emit, str_lower, ret. simpl.
  now rewrite literal_never_in_lowered.
Qed.

Lemma perform_web_search_not_str (v : json) (w : world) :
  (forall q, v <> JStr q) ->
  perform_web_search v w = (inl AttributeError, after_search v w).
Proof.
  intros H. destruct v; try reflexivity. now destruct (H s).
Qed.

Lemma prefix_app (p s : string) : String.prefix p (p +:+ s) = true.
Proof.
  induction p as [|a p IH]; simpl; [now destruct s|].
  destruct (ascii_dec a a); [exact IH|congruence].
Qed.

Lemma prefix_app_r (p a b : string) :
  String.prefix p a = true -> String.prefix p (a +:+ b) = true.
Proof.
  revert a. induction p as [|c p IH]; intros a H; [now destruct (a +:+ b)|].
  destruct a as [|c' a]; [discriminate|].
  simpl in *. destruct (ascii_dec c c'); [auto|discriminate].
Qed.

Lemma contains_app_l (n a b : string) :
  contains n a = true -> contains n (a +:+ b) = true.
Proof.
  induction a as [|c a IH]; cbn [contains]; intros H.
  - rewrite orb_false_r in H. destruct n; [|discriminate].
    destruct b; reflexivity.
  - apply orb_true_iff in H as [H|H].
    + pose proof (prefix_app_r _ (String c a) b H) as H'.
      change (String c a +:+ b) with (String c (a +:+ b)) in *.
      cbn [contains]. rewrite H'. reflexivity.
    + change (String c a +:+ b) with (String c (a +:+ b)).
      cbn [contains]. rewrite (IH H). apply orb_true_r.
Qed.

Lemma contains_app_r (n a b : string) :
  contains n b = true -> contains n (a +:+ b) = true.
Proof.
  intros H. induction a as [|c a IH]; [exact H|].
  change (String c a +:+ b) with (String c (a +:+ b)).
  cbn [contains]. rewrite IH. apply orb_true_r.
Qed.

Lemma contains_self_app (n b : string) : contains n (n +:+ b) = true.
Proof.
  destruct (n +:+ b) eqn:E; cbn [contains]; rewrite <- E, prefix_app; reflexivity.
Qed.

Lemma contains_middle (n a b : string) : contains n (a +:+ n +:+ b) = true.
Proof. apply contains_app_r, contains_self_app. Qed.

Lemma contains_between (n a b s : string) :
  s = a +:+ n +:+ b -> contains n s = true.
Proof. intros ->. apply contains_middle. Qed.

Lemma append_assoc (a b c : string) : (a +:+ b) +:+ c = a +:+ (b +:+ c).
Proof.
  induction a as [|x a IH]; [reflexivity|].
  change (String x ((a +:+ b) +:+ c) = String x (a +:+ (b +:+ c))). now f_equal.
Qed.

(** ** Schema validation *)

Lemma validate_dump_ItineraryItem (i : ItineraryItem) :
  validate_ItineraryItem (dump_ItineraryItem i) = Some i.
Proof. now destruct i. Qed.

Lemma validate_dump_Day (d : Day) : validate_Day (dump_Day d) = Some d.
Proof.
  destruct d as [dt sm its].
  unfold validate_Day, dump_Day, list_field. cbn -[mapM].
  change (map dump_ItineraryItem its) with (dump_ItineraryItem <$> its).
  rewrite (mapM_fmap_Some _ _ _ validate_dump_ItineraryItem). reflexivity.
Qed.

Lemma validate_model_dump (it : Itinerary) :
  validate_Itinerary (model_dump it) = Some it.
Proof.
  destruct it as [t sd ed ds].
  unfold validate_Itinerary, model_dump, list_field. cbn -[mapM].
  change (map dump_Day ds) with (dump_Day <$> ds).
  rewrite (mapM_fmap_Some _ _ _ validate_dump_Day). reflexivity.
Qed.

Lemma has_text_str_field (k : string) (o : list (string * json)) :
  has_text k o = true -> is_Some (str_field k o).
Proof.
  unfold has_text, str_field. destruct (dict_get k o) as [[]|]; try discriminate.
  intros _. simpl. eauto.
Qed.

Lemma has_list_list_field {T} (shape : json -> bool) (elem : json -> option T)
    (k : string) (o : list (string * json)) :
  (forall j, shape j = true -> is_Some (elem j)) ->
  has_list shape k o = true -> is_Some (list_field elem k o).
Proof.
  intros Helem. unfold has_list, list_field.
  destruct (dict_get k o) as [[]|]; try discriminate.
  intros H. simpl. apply mapM_is_Some_2.
  apply Forall_forall. intros j Hj. apply Helem.
  rewrite forallb_forall in H. apply H. now apply list_elem_of_In.
Qed.

Lemma item_record_validates (j : json) :
  is_item_record j = true -> is_Some (validate_ItineraryItem j).
Proof.
  destruct j; try discriminate. cbn [is_item_record]. rewrite !andb_true_iff.
  intros [[H1 H2] H3]. unfold validate_ItineraryItem. cbn [as_dict mbind option_bind].
  destruct (has_text_str_field _ _ H1) as [? ->].
  destruct (has_text_str_field _ _ H2) as [? ->].
  destruct (has_text_str_field _ _ H3) as [? ->]. simpl. eauto.
Qed.

Lemma day_record_validates (j : json) :
  is_day_record j = true -> is_Some (validate_Day j).
Proof.
  destruct j; try discriminate. cbn [is_day_record]. rewrite !andb_true_iff.
  intros [[H1 H2] H3]. unfold validate_Day. cbn [as_dict mbind option_bind].
  destruct (has_text_str_field _ _ H1) as [? ->].
  destruct (has_text_str_field _ _ H2) as [? ->].
  destruct (has_list_list_field _ _ _ _ item_record_validates H3) as [? ->].
  simpl. eauto.
Qed.

Lemma itinerary_record_validates (j : json) :
  is_itinerary_record j = true -> is_Some (validate_Itinerary j).
Proof.
  destruct j; try discriminate. cbn [is_itinerary_record]. rewrite !andb_true_iff.
  intros [[[H1 H2] H3] H4]. unfold validate_Itinerary. cbn [as_dict mbind option_bind].
  destruct (has_text_str_field _ _ H1) as [? ->].
  destruct (has_text_str_field _ _ H2) as [? ->].
  destruct (has_text_str_field _ _ H3) as [? ->].
  destruct (has_list_list_field _ _ _ _ day_record_validates H4) as [? ->].
  simpl. eauto.
Qed.

Lemma str_field_has_text (k : string) (o : list (string * json)) :
  is_Some (str_field k o) -> has_text k o = true.
Proof.
  unfold has_text, str_field. destruct (dict_get k o) as [[]|]; simpl;
    intros [x Hx]; try discriminate; reflexivity.
Qed.

Lemma list_field_has_list {T} (shape : json -> bool) (elem : json -> option T)
    (k : string) (o : list (string * json)) :
  (forall j, is_Some (elem j) -> shape j = true) ->
  is_Some (list_field elem k o) -> has_list shape k o = true.
Proof.
  intros Helem. unfold has_list, list_field.
  destruct (dict_get k o) as [[]|]; simpl; intros [x Hx]; try discriminate.
  apply forallb_forall. intros j Hj. apply Helem.
  assert (Hs : is_Some (mapM elem l)) by eauto.
  apply mapM_is_Some_1 in Hs. rewrite Forall_forall in Hs.
  apply (Hs j). now apply list_elem_of_In.
Qed.

Ltac some_bind H x :=
  match type of H with
  | is_Some (mbind _ ?m) =>
      let E := fresh "E" in
      destruct m as [x|] eqn:E; [cbn [mbind option_bind] in H | destruct H; discriminate]
  end.

Lemma item_validates_record (j : json) :
  is_Some (validate_ItineraryItem j) -> is_item_record j = true.
Proof.
  unfold validate_ItineraryItem. destruct j; cbn [as_dict mbind option_bind];
    try (intros [? ?]; discriminate).
  intros H. some_bind H t. some_bind H a. some_bind H l.
  cbn [is_item_record]. rewrite !str_field_has_text by eauto. reflexivity.
Qed.

Lemma day_validates_record (j : json) :
  is_Some (validate_Day j) -> is_day_record j = true.
Proof.
  unfold validate_Day. destruct j; cbn [as_dict mbind option_bind];
    try (intros [? ?]; discriminate).
  intros H. some_bind H d. some_bind H s. some_bind H its.
  cbn [is_day_record]. rewrite !str_field_has_text by eauto.
  rewrite (list_field_has_list _ _ _ _ item_validates_record) by eauto.
  reflexivity.
Qed.

Lemma itinerary_validates_record (j : json) :
  is_Some (validate_Itinerary j) -> is_itinerary_record j = true.
Proof.
  unfold validate_Itinerary. destruct j; cbn [as_dict mbind option_bind];
    try (intros [? ?]; discriminate).
  intros H. some_bind H t. some_bind H sd. some_bind H ed. some_bind H ds.
  cbn [is_itinerary_record]. rewrite !str_field_has_text by eauto.
  rewrite (list_field_has_list _ _ _ _ day_validates_record) by eauto.
  reflexivity.
Qed.

Lemma not_record_rejected (j : json) :
  is_itinerary_record j = false -> validate_Itinerary j = None.
Proof.
  intros H. destruct (validate_Itinerary j) eqn:E; [|reflexivity].
  rewrite itinerary_validates_record in H by eauto. discriminate.
Qed.

(** ** The reference decoder reads what [json.dumps] writes *)

Lemma unescape_unicode_hex (c : ascii) :
  unescape_unicode "0" "0" (hex_digit (N_of_ascii c / 16))
    (hex_digit (N_of_ascii c mod 16)) = Some c.
Proof. destruct c as [[] [] [] [] [] [] [] []]; vm_compute; reflexivity. Qed.

Lemma ascii_of_code (c : ascii) (n : N) : N_of_ascii c = n -> c = ascii_of_N n.
Proof. intros <-. symmetry. apply ascii_N_embedding. Qed.

Lemma read_string_short (e u : ascii) (t s rest : string) :
  unescape_short e = Some u ->
  (N_of_ascii e =? 117)%N = false ->
  read_string t = Some (s, rest) ->
  read_string (String "092" (String e t)) = Some (String u s, rest).
Proof.
  intros Hu He H. cbn [read_string].
  change (N_of_ascii "092" =? 34)%N with false.
  change (N_of_ascii "092" =? 92)%N with true. cbv iota.
  now rewrite He, Hu, H.
Qed.

Lemma read_string_unicode (c : ascii) (t s rest : string) :
  read_string t = Some (s, rest) ->
  read_string (unicode_escape c +:+ t) = Some (String c s, rest).
Proof.
  intros H. unfold unicode_escape.
  change (read_string (String "092" (String "u" (String "0" (String "0"
            (String (hex_digit (N_of_ascii c / 16))
               (String (hex_digit (N_of_ascii c mod 16)) t)))))) = Some (String c s, rest)).
  cbn [read_string]. change (N_of_ascii "092" =? 34)%N with false.
  change (N_of_ascii "092" =? 92)%N with true.
  change (N_of_ascii "u" =? 117)%N with true. cbv iota.
  now rewrite unescape_unicode_hex, H.
Qed.

Lemma read_string_plain (c : ascii) (t s rest : string) :
  (N_of_ascii c =? 34)%N = false ->
  (N_of_ascii c =? 92)%N = false ->
  (N_of_ascii c <? 32)%N = false ->
  read_string t = Some (s, rest) ->
  read_string (String c t) = Some (String c s, rest).
Proof. intros H1 H2 H3 H. cbn [read_string]. now rewrite H1, H2, H3, H. Qed.

Lemma read_string_escape_char (c : ascii) (t s rest : string) :
  read_string t = Some (s, rest) ->
  read_string (escape_char c +:+ t) = Some (String c s, rest).
Proof.
  intros H. unfold escape_char.
  destruct (N.eqb_spec (N_of_ascii c) 34) as [E|N34];
    [apply ascii_of_code in E; subst c;
     now apply (read_string_short dquote dquote)|].
  destruct (N.eqb_spec (N_of_ascii c) 92) as [E|N92];
    [apply ascii_of_code in E; subst c;
     now apply (read_string_short "092" "092")|].
  destruct (N.eqb_spec (N_of_ascii c) 10) as [E|N10];
    [apply ascii_of_code in E; subst c;
     now apply (read_string_short "n" "010")|].
  destruct (N.eqb_spec (N_of_ascii c) 13) as [E|N13];
    [apply ascii_of_code in E; subst c;
     now apply (read_string_short "r" "013")|].
  destruct (N.eqb_spec (N_of_ascii c) 9) as [E|N9];
    [apply ascii_of_code in E; subst c;
     now apply (read_string_short "t" "009")|].
  destruct (N.eqb_spec (N_of_ascii c) 8) as [E|N8];
    [apply ascii_of_code in E; subst c;
     now apply (read_string_short "b" "008")|].
  destruct (N.eqb_spec (N_of_ascii c) 12) as [E|N12];
    [apply ascii_of_code in E; subst c;
     now apply (read_string_short "f" "012")|].
  destruct ((N_of_ascii c <? 32) || (126 <? N_of_ascii c))%N eqn:Hrange.
  - now apply read_string_unicode.
  - apply orb_false_iff in Hrange as [Hlo _].
    apply N.eqb_neq in N34, N92. now apply read_string_plain.
Qed.

Lemma read_string_escape (s rest : string) :
  read_string (escape s +:+ dq +:+ rest) = Some (s, rest).
Proof.
  induction s as [|c s IH]; [reflexivity|].
  cbn [escape]. rewrite append_assoc. now apply read_string_escape_char.
Qed.

Lemma read_string_encoded (s rest : string) :
  read_string (escape s +:+ dq +:+ rest) = Some (s, rest) /\
  encode_basestring_ascii s +:+ rest = String dquote (escape s +:+ dq +:+ rest).
Proof.
  split; [apply read_string_escape|].
  unfold encode_basestring_ascii. now rewrite !append_assoc.
Qed.

Lemma json_nested_ind (P : json -> Prop) :
  P JNull ->
  (forall b, P (JBool b)) ->
  (forall z, P (JInt z)) ->
  (forall r, P (JFloat r)) ->
  (forall s, P (JStr s)) ->
  (forall l, Forall P l -> P (JList l)) ->
  (forall kvs, Forall (fun kv => P (snd kv)) kvs -> P (JDict kvs)) ->
  forall j, P j.
Proof.
  intros Hnull Hbool Hint Hfloat Hstr Hlist Hdict.
  fix IH 1.
  intros [| b | z | r | s | l | kvs];
    [exact Hnull | apply Hbool | apply Hint | apply Hfloat | apply Hstr | | ].
  - apply Hlist. induction l as [|x l IHl]; constructor; [apply IH|exact IHl].
  - apply Hdict. induction kvs as [|[k v] kvs IHk]; constructor; [apply IH|exact IHk].
Qed.

Lemma read_value_space (fuel : nat) (t : string) :
  read_value fuel (String " " t) = read_value fuel t.
Proof. destruct fuel; reflexivity. Qed.

Lemma read_items_space (fuel : nat) (t : string) :
  read_items fuel (String " " t) = read_items fuel t.
Proof. destruct fuel; [reflexivity|]. cbn [read_items]. now rewrite read_value_space. Qed.

Lemma read_value_str (fuel : nat) (s rest : string) :
  read_value (S fuel) (json_dumps (JStr s) +:+ rest) = Some (JStr s, rest).
Proof.
  destruct (read_string_encoded s rest) as [Hr He].
  cbn [json_dumps]. rewrite He.
  change (read_value (S fuel) (String dquote (escape s +:+ dq +:+ rest)))
    with ('(t, r) ← read_string (escape s +:+ dq +:+ rest); Some (JStr t, r)).
  now rewrite Hr.
Qed.

Lemma read_value_null (fuel : nat) (rest : string) :
  read_value (S fuel) (json_dumps JNull +:+ rest) = Some (JNull, rest).
Proof. reflexivity. Qed.

Lemma read_value_bool (fuel : nat) (b : bool) (rest : string) :
  read_value (S fuel) (json_dumps (JBool b) +:+ rest) = Some (JBool b, rest).
Proof. destruct b; reflexivity. Qed.

Lemma dumps_not_closing (c : ascii) (j : json) (rest : string) :
  textual j = true -> c = "]"%char \/ c = "}"%char ->
  next_is c (json_dumps j +:+ rest) = None.
Proof.
  intros Ht Hc. destruct j as [| [] | z | r | s | l | kvs]; try discriminate;
    destruct Hc as [-> | ->]; reflexivity.
Qed.

Lemma read_items_dumps (l : list json) :
  l <> [] -> Forall reads l ->
  forall fuel rest,
    list_sum (map (fun v => S (need v)) l) <= fuel ->
    read_items fuel (join ", " (map json_dumps l) +:+ "]" +:+ rest) = Some (l, rest).
Proof.
  induction l as [|v l IH]; [congruence|]. intros _ Hall fuel rest Hfuel.
  apply Forall_cons in Hall as [Hv Hl].
  change (S (need v) + list_sum (map (fun v => S (need v)) l) <= fuel) in Hfuel.
  destruct fuel as [|fuel]; [lia|].
  destruct l as [|v' l'].
  - cbn [map join read_items]. rewrite Hv by lia.
    reflexivity.
  - change (join ", " (map json_dumps (v :: v' :: l')))
      with (json_dumps v +:+ ", " +:+ join ", " (map json_dumps (v' :: l'))).
    rewrite !append_assoc. cbn [read_items]. rewrite Hv by lia.
    change (mbind ?f (Some ?x)) with (f x). cbv beta iota.
    change (next_is "," (", " +:+ join ", " (map json_dumps (v' :: l')) +:+ "]" +:+ rest))
      with (Some (String " " (join ", " (map json_dumps (v' :: l')) +:+ "]" +:+ rest))).
    cbv iota. rewrite read_items_space.
    rewrite IH; [reflexivity|discriminate|exact Hl|lia].
Qed.

Lemma member_text_app (k : string) (v : json) (rest : string) :
  member_text (k, v) +:+ rest =
  String dquote (escape k +:+ dq +:+ String ":" (String " " (json_dumps v +:+ rest))).
Proof.
  unfold member_text, encode_basestring_ascii. now rewrite !append_assoc.
Qed.

Lemma read_members_space (fuel : nat) (t : string) :
  read_members fuel (String " " t) = read_members fuel t.
Proof. destruct fuel; reflexivity. Qed.

Lemma read_members_dumps (kvs : list (string * json)) :
  kvs <> [] -> Forall (fun kv => reads (snd kv)) kvs ->
  forall fuel rest,
    list_sum (map (fun kv => match kv with (_, v) => S (need v) end) kvs) <= fuel ->
    read_members fuel (join ", " (map member_text kvs) +:+ "}" +:+ rest) = Some (kvs, rest).
Proof.
  induction kvs as [|[k v] kvs IH]; [congruence|]. intros _ Hall fuel rest Hfuel.
  apply Forall_cons in Hall as [Hv Hl]. cbn [snd] in Hv.
  change (S (need v) +
          list_sum (map (fun kv => match kv with (_, v) => S (need v) end) kvs) <= fuel)
    in Hfuel.
  destruct fuel as [|fuel]; [lia|].
  destruct kvs as [|kv' kvs'].
  - cbn [map join]. rewrite member_text_app. cbn [read_members].
    change (next_is dquote (String dquote ?x)) with (Some x).
    change (mbind ?f (Some ?x)) with (f x). cbv beta.
    rewrite read_string_escape.
    change (mbind ?f (Some ?x)) with (f x). cbv beta iota.
    change (next_is ":" (String ":" ?x)) with (Some x).
    change (mbind ?f (Some ?x)) with (f x). cbv beta.
    rewrite read_value_space, Hv by lia. reflexivity.
  - change (join ", " (map member_text ((k, v) :: kv' :: kvs')))
      with (member_text (k, v) +:+ ", " +:+ join ", " (map member_text (kv' :: kvs'))).
    rewrite append_assoc, member_text_app. cbn [read_members].
    change (next_is dquote (String dquote ?x)) with (Some x).
    change (mbind ?f (Some ?x)) with (f x). cbv beta.
    rewrite read_string_escape.
    change (mbind ?f (Some ?x)) with (f x). cbv beta iota.
    change (next_is ":" (String ":" ?x)) with (Some x).
    change (mbind ?f (Some ?x)) with (f x). cbv beta.
    rewrite read_value_space, Hv by lia.
    change (mbind ?f (Some ?x)) with (f x). cbv beta iota.
    rewrite append_assoc.
    change (next_is "," (", " +:+ ?x)) with (Some (String " " x)).
    cbv iota. rewrite read_members_space.
    rewrite IH; [reflexivity|discriminate|exact Hl|lia].
Qed.

Lemma json_dumps_dict (kvs : list (string * json)) :
  json_dumps (JDict kvs) = "{" +:+ join ", " (map member_text kvs) +:+ "}".
Proof. reflexivity. Qed.

Lemma read_value_dumps (j : json) : textual j = true -> reads j.
Proof.
  induction j as [| b | z | r | s | l IH | kvs IH] using json_nested_ind;
    intros Ht fuel rest Hfuel; try discriminate;
    (destruct fuel as [|fuel]; [cbn in Hfuel; lia|]).
  - apply read_value_null.
  - apply read_value_bool.
  - apply read_value_str.
  - cbn [textual] in Ht. cbn [need] in Hfuel.
    assert (Hall : Forall reads l).
    { rewrite Forall_forall in IH. apply Forall_forall. intros v Hv.
      apply IH; [exact Hv|]. rewrite forallb_forall in Ht. apply Ht.
      now apply list_elem_of_In. }
    destruct l as [|v l]; [reflexivity|].
    cbn [json_dumps]. rewrite !append_assoc.
    change (read_value (S fuel) ("[" +:+ ?x))
      with (match next_is "]" x with
            | Some r => Some (JList [], r)
            | None => '(l, r) ← read_items fuel x; Some (JList l, r)
            end).
    assert (Hhead : forall x, next_is "]" (join ", " (map json_dumps (v :: l)) +:+ x)
                              = None).
    { cbn [forallb] in Ht. apply andb_true_iff in Ht as [Hv _].
      intros x. destruct l as [|v' l'].
      - cbn [map join]. apply dumps_not_closing; auto.
      - change (join ", " (map json_dumps (v :: v' :: l')))
          with (json_dumps v +:+ ", " +:+ join ", " (map json_dumps (v' :: l'))).
        rewrite append_assoc. apply dumps_not_closing; auto. }
    rewrite Hhead.
    rewrite read_items_dumps; [reflexivity|discriminate|exact Hall|lia].
  - cbn [textual] in Ht. cbn [need] in Hfuel.
    assert (Hall : Forall (fun kv => reads (snd kv)) kvs).
    { rewrite Forall_forall in IH. apply Forall_forall. intros [k v] Hv.
      apply (IH _ Hv). rewrite forallb_forall in Ht.
      apply (Ht (k, v)). now apply list_elem_of_In. }
    destruct kvs as [|[k v] kvs]; [reflexivity|].
    rewrite json_dumps_dict, !append_assoc.
    change (read_value (S fuel) ("{" +:+ ?x))
      with (match next_is "}" x with
            | Some r => Some (JDict [], r)
            | None => '(l, r) ← read_members fuel x; Some (JDict l, r)
            end).
    assert (Hhead : forall x, next_is "}" (join ", " (map member_text ((k, v) :: kvs)) +:+ x)
                              = None).
    { intros x. destruct kvs as [|kv' kvs'].
      - cbn [map join]. now rewrite member_text_app.
      - change (join ", " (map member_text ((k, v) :: kv' :: kvs')))
          with (member_text (k, v) +:+ ", " +:+ join ", " (map member_text (kv' :: kvs'))).
        now rewrite append_assoc, member_text_app. }
    rewrite Hhead.
    rewrite read_members_dumps; [reflexivity|discriminate|exact Hall|lia].
Qed.

Lemma length_append (a b : string) :
  String.length (a +:+ b) = String.length a + String.length b.
Proof.
  induction a as [|c a IH]; [reflexivity|].
  change (S (String.length (a +:+ b)) = S (String.length a + String.length b)).
  now f_equal.
Qed.

Lemma append_empty (a : string) : a +:+ EmptyString = a.
Proof.
  induction a as [|c a IH]; [reflexivity|].
  change (String c (a +:+ EmptyString) = String c a). now f_equal.
Qed.

Lemma join_need_bound {A} (text : A -> string) (cost : A -> nat) (l : list A) :
  Forall (fun x => cost x <= String.length (text x)) l ->
  list_sum (map (fun x => S (cost x)) l) <= S (String.length (join ", " (map text l))).
Proof.
  induction 1 as [|x l Hx Hl IH]; [cbn; lia|].
  destruct l as [|y l].
  - cbn [map join list_sum fold_right]. lia.
  - change (join ", " (map text (x :: y :: l)))
      with (text x +:+ ", " +:+ join ", " (map text (y :: l))).
    change (list_sum (map (fun x => S (cost x)) (x :: y :: l)))
      with (S (cost x) + list_sum (map (fun x => S (cost x)) (y :: l))).
    rewrite !length_append. cbn [String.length]. lia.
Qed.

Lemma need_le_length (j : json) :
  textual j = true -> need j <= String.length (json_dumps j).
Proof.
  induction j as [| b | z | r | s | l IH | kvs IH] using json_nested_ind;
    intros Ht; try discriminate.
  - cbn. lia.
  - destruct b; cbn; lia.
  - cbn [need json_dumps]. unfold encode_basestring_ascii.
    rewrite !length_append. cbn. lia.
  - cbn [need json_dumps textual] in *. rewrite !length_append. cbn [String.length].
    pose proof (join_need_bound json_dumps need l) as H.
    rewrite forallb_forall in Ht. rewrite Forall_forall in IH.
    specialize (H ltac:(apply Forall_forall; intros v Hv; apply IH; [exact Hv|];
                        apply Ht; now apply list_elem_of_In)).
    lia.
  - cbn [textual] in Ht. rewrite json_dumps_dict, !length_append.
    cbn [String.length need].
    pose proof (join_need_bound member_text (fun kv => need (snd kv)) kvs) as H.
    rewrite forallb_forall in Ht. rewrite Forall_forall in IH.
    assert (Hall : Forall (fun kv => need (snd kv) <= String.length (member_text kv)) kvs).
    { apply Forall_forall. intros [k v] Hv. specialize (IH _ Hv). cbn [snd] in *.
      unfold member_text. rewrite !length_append.
      specialize (IH (Ht (k, v) ltac:(now apply list_elem_of_In))). lia. }
    specialize (H Hall).
    assert (Hmap : map (fun kv : string * json => let (_, v) := kv in S (need v)) kvs
                   = map (fun kv => S (need (snd kv))) kvs)
      by (apply map_ext; now intros [? ?]).
    rewrite Hmap. lia.
Qed.

Lemma reference_json_loads_dumps (j : json) :
  textual j = true -> reference_json_loads (json_dumps j) = Some j.
Proof.
  intros Ht. unfold reference_json_loads.
  pose proof (read_value_dumps j Ht (S (String.length (json_dumps j))) EmptyString) as H.
  rewrite append_empty in H. rewrite H by (pose proof (need_le_length j Ht); lia).
  reflexivity.
Qed.

Lemma model_dump_textual (it : Itinerary) : textual (model_dump it) = true.
Proof.
  cbn. rewrite andb_true_r. apply forallb_forall. intros j Hj.
  apply in_map_iff in Hj as (d & <- & _). cbn. rewrite andb_true_r.
  apply forallb_forall. intros i Hi. apply in_map_iff in Hi as (x & <- & _). reflexivity.
Qed.

Lemma str_field_inv (k : string) (o : list (string * json)) (s : string) :
  str_field k o = Some s -> dict_get k o = Some (JStr s).
Proof.
  unfold str_field. destruct (dict_get k o) as [[]|]; cbn; intros; simplify_eq; reflexivity.
Qed.

Lemma list_field_inv {T} (elem : json -> option T) (k : string)
    (o : list (string * json)) (ts : list T) :
  list_field elem k o = Some ts ->
  exists l, dict_get k o = Some (JList l) /\ Forall2 (fun j t => elem j = Some t) l ts.
Proof.
  unfold list_field. destruct (dict_get k o) as [[]|]; cbn; intros H; try discriminate.
  eexists. split; [reflexivity|]. now apply mapM_Some_1.
Qed.

Lemma str_field_intro (k : string) (o : list (string * json)) (t : string) :
  dict_get k o = Some (JStr t) -> str_field k o = Some t.
Proof. intros H. unfold str_field. now rewrite H. Qed.

Lemma list_field_intro {T} (elem : json -> option T) (k : string)
    (o : list (string * json)) (l : list json) (ts : list T) :
  dict_get k o = Some (JList l) -> Forall2 (fun j t => elem j = Some t) l ts ->
  list_field elem k o = Some ts.
Proof.
  intros H Hl. unfold list_field. rewrite H. cbn [mbind option_bind as_list].
  now apply mapM_Some_2.
Qed.

(** Validation succeeds with a record exactly when the value spells it. *)
Lemma validate_item_spells (j : json) (i : ItineraryItem) :
  validate_ItineraryItem j = Some i <-> item_of j i.
Proof.
  split.
  - unfold validate_ItineraryItem. destruct j as [| | | | |l|o]; try discriminate.
    cbn [as_dict mbind option_bind]. intros H.
    destruct (str_field "time" o) as [t|] eqn:Ht; [|discriminate].
    destruct (str_field "activity" o) as [a|] eqn:Ha; [|discriminate].
    destruct (str_field "location" o) as [c|] eqn:Hc; [|discriminate].
    cbn in H. injection H as <-. exists o. cbn.
    auto using str_field_inv.
  - intros (o & -> & Ht & Ha & Hl). unfold validate_ItineraryItem.
    cbn [as_dict mbind option_bind].
    rewrite (str_field_intro _ _ _ Ht), (str_field_intro _ _ _ Ha),
      (str_field_intro _ _ _ Hl).
    now destruct i.
Qed.

Lemma validate_day_spells (j : json) (d : Day) :
  validate_Day j = Some d <-> day_of j d.
Proof.
  split.
  - unfold validate_Day. destruct j as [| | | | |l|o]; try discriminate.
    cbn [as_dict mbind option_bind]. intros H.
    destruct (str_field "date" o) as [t|] eqn:Ht; [|discriminate].
    destruct (str_field "summary" o) as [a|] eqn:Ha; [|discriminate].
    cbn [mbind option_bind] in H.
    destruct (list_field validate_ItineraryItem "items" o) as [its|] eqn:Hi;
      [|discriminate].
    cbn in H. injection H as <-.
    destruct (list_field_inv _ _ _ _ Hi) as (l & Hl & Hall).
    exists o, l. cbn. repeat split; auto using str_field_inv.
    eapply Forall2_impl; [exact Hall|]. intros x y. apply validate_item_spells.
  - intros (o & l & -> & Ht & Ha & Hl & Hall). unfold validate_Day.
    cbn [as_dict mbind option_bind].
    rewrite (str_field_intro _ _ _ Ht), (str_field_intro _ _ _ Ha).
    cbn [mbind option_bind].
    rewrite (list_field_intro validate_ItineraryItem _ _ l (items d) Hl).
    + now destruct d.
    + eapply Forall2_impl; [exact Hall|]. intros x y. apply validate_item_spells.
Qed.

Lemma validate_itinerary_spells (j : json) (it : Itinerary) :
  validate_Itinerary j = Some it <-> itinerary_of j it.
Proof.
  split.
  - unfold validate_Itinerary. destruct j as [| | | | |l|o]; try discriminate.
    cbn [as_dict mbind option_bind]. intros H.
    destruct (str_field "title" o) as [t|] eqn:Ht; [|discriminate].
    destruct (str_field "startDate" o) as [a|] eqn:Ha; [|discriminate].
    destruct (str_field "endDate" o) as [b|] eqn:Hb; [|discriminate].
    cbn [mbind option_bind] in H.
    destruct (list_field validate_Day "days" o) as [ds|] eqn:Hd; [|discriminate].
    cbn in H. injection H as <-.
    destruct (list_field_inv _ _ _ _ Hd) as (l & Hl & Hall).
    exists o, l. cbn. repeat split; auto using str_field_inv.
    eapply Forall2_impl; [exact Hall|]. intros x y. apply validate_day_spells.
  - intros (o & l & -> & Ht & Ha & Hb & Hl & Hall). unfold validate_Itinerary.
    cbn [as_dict mbind option_bind].
    rewrite (str_field_intro _ _ _ Ht), (str_field_intro _ _ _ Ha),
      (str_field_intro _ _ _ Hb).
    cbn [mbind option_bind].
    rewrite (list_field_intro validate_Day _ _ l (days it) Hl).
    + now destruct it.
    + eapply Forall2_impl; [exact Hall|]. intros x y. apply validate_day_spells.
Qed.

(** A reply whose text accessor succeeds starts with a text part, so it
    asks for no tool. *)
Lemma text_reply_is_direct (resp : GenerateContentResponse) (s : string) :
  text resp = inr s ->
  exists t, first_part resp = Some (Part_text t).
Proof.
  unfold text, first_part.
  destruct (candidates resp) as [|c [|c' cs]]; try discriminate.
  destruct (parts (content c)) as [|p ps]; [discriminate|].
  destruct p as [t| |]; [eauto| |]; cbn; discriminate.
Qed.

(** The text accessor raises on a reply that starts with a function call. *)
Lemma text_of_function_call (resp : GenerateContentResponse) (fc : FunctionCall) :
  first_part resp = Some (Part_function_call fc) -> text resp = inl ValueError.
Proof.
  unfold text, first_part.
  destruct (candidates resp) as [|c [|c' cs]]; try discriminate;
    destruct (parts (content c)) as [|p ps]; try discriminate;
    intros [= ->]; reflexivity.
Qed.

(** ** The monad *)

Lemma bind_inr {A B} (m : M A) (k : A -> M B) (w w' : world) (a : A) :
  m w = (inr a, w') -> bind m k w = k a w'.
Proof. intros H. unfold bind. now rewrite H. Qed.

Lemma bind_inl {A B} (m : M A) (k : A -> M B) (w w' : world) (e : exn) :
  m w = (inl e, w') -> bind m k w = (inl e, w').
Proof. intros H. unfold bind. now rewrite H. Qed.

Lemma bind_run {A B} (m m' : M A) (k : A -> M B) (w w' : world) :
  m w = m' w' -> bind m k w = bind m' k w'.
Proof. intros H. unfold bind. now rewrite H. Qed.

Lemma guarded_raise (body : M Itinerary) (w w' : world) (e : exn) :
  body w = (inl e, w') ->
  guarded body w = (inl (HTTPException 500 failure_detail), after_error e w').
Proof. intros H. unfold guarded, try_except. now rewrite H. Qed.

Lemma guarded_return (body : M Itinerary) (w w' : world) (it : Itinerary) :
  body w = (inr it, w') -> guarded body w = (inr it, w').
Proof. intros H. unfold guarded, try_except. now rewrite H. Qed.

Lemma guarded_run (body body' : M Itinerary) (w w' : world) :
  body w = body' w' -> guarded body w = guarded body' w'.
Proof. intros H. unfold guarded, try_except. now rewrite H. Qed.

Lemma count_app (p : event -> bool) (tr tr' : list event) :
  count p (tr ++ tr') = count p tr + count p tr'.
Proof. induction tr as [|ev tr IH]; simpl; [reflexivity|]. rewrite IH. lia. Qed.

Lemma guarded_trace (body : M Itinerary) (w : world) (p : event -> bool) :
  (forall e, p (EvErrorLine e) = false) ->
  count p (trace (snd (guarded body w))) = count p (trace (snd (body w))).
Proof.
  intros Hp. unfold guarded, try_except, bind, emit, raise.
  destruct (body w) as [[e|it] w']; simpl; [|reflexivity].
  rewrite count_app. simpl. rewrite Hp. lia.
Qed.

Lemma first_part_inv (resp : GenerateContentResponse) (p : Part) :
  first_part resp = Some p ->
  exists c cs ps, candidates resp = c :: cs /\ parts (content c) = p :: ps.
Proof.
  unfold first_part. destruct (candidates resp) as [|c cs]; [discriminate|].
  destruct (parts (content c)) as [|p' ps] eqn:Hp; [discriminate|].
  intros [= ->]. exists c, cs, ps. split; [reflexivity|exact Hp].
Qed.

(** ** The exchange with the model *)

Section Exchange.

Variable json_loads : string -> option json.
Variable model : list outgoing -> exn + GenerateContentResponse.

Lemma send_message_run (t : string) (w : world) :
  send_message model (SendContent t) w =
  (model (session w ++ [SendContent t]), after_send (SendContent t) w).
Proof. reflexivity. Qed.

Lemma send_part_refused (p : Part) (w : world) :
  send_message model (SendPart p) w = (inl TypeError, w).
Proof. reflexivity. Qed.

Lemma final_answer_world (resp : GenerateContentResponse) (w : world) :
  snd (final_answer json_loads resp w) = w.
Proof.
  unfold final_answer, bind, lift, model_validate_json.
  destruct (text resp) as [e|s]; [reflexivity|].
  destruct (mbind _ _); reflexivity.
Qed.

Lemma final_answer_valid (resp : GenerateContentResponse) (s : string)
    (j : json) (it : Itinerary) (w : world) :
  text resp = inr s -> json_loads s = Some j -> validate_Itinerary j = Some it ->
  final_answer json_loads resp w = (inr it, w).
Proof.
  intros Ht Hj Hv. unfold final_answer, bind, lift, model_validate_json.
  rewrite Ht, Hj. simpl. now rewrite Hv.
Qed.

Lemma final_answer_no_text (resp : GenerateContentResponse) (e : exn) (w : world) :
  text resp = inl e -> final_answer json_loads resp w = (inl e, w).
Proof. intros Ht. unfold final_answer, bind, lift. now rewrite Ht. Qed.

Lemma final_answer_malformed (resp : GenerateContentResponse) (s : string) (w : world) :
  text resp = inr s -> json_loads s = None ->
  final_answer json_loads resp w = (inl ValidationError, w).
Proof.
  intros Ht Hj. unfold final_answer, bind, lift, model_validate_json.
  now rewrite Ht, Hj.
Qed.

Lemma final_answer_mismatch (resp : GenerateContentResponse) (s : string)
    (j : json) (w : world) :
  text resp = inr s -> json_loads s = Some j -> validate_Itinerary j = None ->
  final_answer json_loads resp w = (inl ValidationError, w).
Proof.
  intros Ht Hj Hv. unfold final_answer, bind, lift, model_validate_json.
  rewrite Ht, Hj. simpl. now rewrite Hv.
Qed.

Lemma tool_round_str (fc : FunctionCall) (q : string) (w : world) :
  args fc !! "query" = Some (JStr q) ->
  tool_round model fc w = (inl TypeError, after_search (JStr q) w).
Proof.
  intros Hq. unfold tool_round, getitem. rewrite Hq.
  erewrite bind_inr by reflexivity.
  erewrite bind_inr by apply perform_web_search_str.
  reflexivity.
Qed.

Lemma tool_round_no_query (fc : FunctionCall) (w : world) :
  args fc !! "query" = None ->
  tool_round model fc w = (inl (KeyError "query"), w).
Proof.
  intros Hq. unfold tool_round, getitem. rewrite Hq. reflexivity.
Qed.

Lemma tool_round_not_str (fc : FunctionCall) (v : json) (w : world) :
  args fc !! "query" = Some v ->
  (forall q, v <> JStr q) ->
  tool_round model fc w = (inl AttributeError, after_search v w).
Proof.
  intros Hq Hv. unfold tool_round, getitem. rewrite Hq.
  erewrite bind_inr by reflexivity.
  erewrite bind_inl by (apply perform_web_search_not_str, Hv).
  reflexivity.
Qed.

(** A round of the tool never returns: it raises, before or after the
    banner. *)
Lemma tool_round_raises (fc : FunctionCall) (w : world) :
  tool_round model fc w = (inl (KeyError "query"), w) \/
  exists e v, tool_round model fc w = (inl e, after_search v w).
Proof.
  destruct (args fc !! "query") as [v|] eqn:Hq.
  - right. destruct v as [| | | |q| |];
      try (exists AttributeError; eexists;
           apply (tool_round_not_str _ _ _ Hq); discriminate).
    exists TypeError, (JStr q). apply (tool_round_str _ _ _ Hq).
  - left. now apply tool_round_no_query.
Qed.

(** The exchange up to the inspection of the first reply. *)
Lemma exchange_first_part (p_text : string) (resp : GenerateContentResponse) (p : Part) :
  model [SendContent p_text] = inr resp ->
  first_part resp = Some p ->
  exchange json_loads model p_text initial_world =
  bind (if String.eqb (name (function_call p)) "perform_web_search"
        then tool_round model (function_call p)
        else ret resp)
       (final_answer json_loads)
       (after_send (SendContent p_text) initial_world).
Proof.
  intros Hm Hfp. destruct (first_part_inv _ _ Hfp) as (c & cs & ps & Hc & Hp).
  unfold exchange.
  erewrite bind_inr by (rewrite send_message_run; simpl; rewrite Hm; reflexivity).
  erewrite bind_inr by (rewrite Hc; reflexivity).
  erewrite bind_inr by (rewrite Hp; reflexivity).
  reflexivity.
Qed.

Lemma exchange_no_first_part (p_text : string) (resp : GenerateContentResponse) :
  model [SendContent p_text] = inr resp ->
  first_part resp = None ->
  exchange json_loads model p_text initial_world =
  (inl IndexError, after_send (SendContent p_text) initial_world).
Proof.
  intros Hm Hfp. unfold exchange.
  erewrite bind_inr by (rewrite send_message_run; simpl; rewrite Hm; reflexivity).
  unfold first_part in Hfp. destruct (candidates resp) as [|c cs]; [reflexivity|].
  erewrite bind_inr by reflexivity.
  destruct (parts (content c)) as [|p ps]; [reflexivity|discriminate].
Qed.

Lemma exchange_transport (p_text : string) (e : exn) :
  model [SendContent p_text] = inl e ->
  exchange json_loads model p_text initial_world =
  (inl e, after_send (SendContent p_text) initial_world).
Proof.
  intros Hm. unfold exchange.
  erewrite bind_inl by (rewrite send_message_run; simpl; rewrite Hm; reflexivity).
  reflexivity.
Qed.

Lemma exchange_direct (p_text : string) (resp : GenerateContentResponse) (p : Part) :
  model [SendContent p_text] = inr resp ->
  first_part resp = Some p ->
  name (function_call p) <> "perform_web_search" ->
  exchange json_loads model p_text initial_world =
  final_answer json_loads resp (after_send (SendContent p_text) initial_world).
Proof.
  intros Hm Hfp Hn.
  rewrite (exchange_first_part _ _ _ Hm Hfp).
  apply String.eqb_neq in Hn. rewrite Hn. reflexivity.
Qed.

Lemma exchange_tool_failure (p_text : string) (resp : GenerateContentResponse)
    (p : Part) (e : exn) (w : world) :
  model [SendContent p_text] = inr resp ->
  first_part resp = Some p ->
  name (function_call p) = "perform_web_search" ->
  tool_round model (function_call p) (after_send (SendContent p_text) initial_world)
    = (inl e, w) ->
  exchange json_loads model p_text initial_world = (inl e, w).
Proof.
  intros Hm Hfp Hn Ht.
  rewrite (exchange_first_part _ _ _ Hm Hfp).
  rewrite Hn. simpl String.eqb. cbv iota.
  now erewrite bind_inl by exact Ht.
Qed.

(** A call of the tool with a text query: the tool runs, and the attempt to
    send its result back raises. *)
Lemma exchange_tool (p_text : string) (resp : GenerateContentResponse) (p : Part)
    (q : string) :
  model [SendContent p_text] = inr resp ->
  first_part resp = Some p ->
  name (function_call p) = "perform_web_search" ->
  args (function_call p) !! "query" = Some (JStr q) ->
  exchange json_loads model p_text initial_world =
  (inl TypeError, after_search (JStr q) (after_send (SendContent p_text) initial_world)).
Proof.
  intros Hm Hfp Hn Hq.
  apply (exchange_tool_failure _ _ _ _ _ Hm Hfp Hn), tool_round_str, Hq.
Qed.

(** Any call of the tool makes the exchange raise. *)
Lemma exchange_tool_raises (p_text : string) (resp : GenerateContentResponse) (p : Part) :
  model [SendContent p_text] = inr resp ->
  first_part resp = Some p ->
  name (function_call p) = "perform_web_search" ->
  exists e w, exchange json_loads model p_text initial_world = (inl e, w).
Proof.
  intros Hm Hfp Hn.
  destruct (tool_round_raises (function_call p)
              (after_send (SendContent p_text) initial_world)) as [H|(e & v & H)];
    eexists _, _; apply (exchange_tool_failure _ _ _ _ _ Hm Hfp Hn H).
Qed.

Lemma final_answer_run (resp : GenerateContentResponse) (w : world) :
  final_answer json_loads resp w = (fst (final_answer json_loads resp w), w).
Proof.
  pose proof (final_answer_world resp w) as H.
  destruct (final_answer json_loads resp w) as [r w']. simpl in *. now subst.
Qed.

(** The worlds an exchange can end in: the prompt sent, and perhaps the
    banner of one tool run (then with an exception). *)
Lemma exchange_outcomes (p_text : string) :
  let w1 := after_send (SendContent p_text) initial_world in
  (exists r, exchange json_loads model p_text initial_world = (r, w1)) \/
  (exists e v, exchange json_loads model p_text initial_world
               = (inl e, after_search v w1)).
Proof.
  cbv zeta.
  destruct (model [SendContent p_text]) as [e|resp] eqn:Hm.
  { left. eexists. apply (exchange_transport _ _ Hm). }
  destruct (first_part resp) as [p|] eqn:Hfp.
  2: { left. eexists. apply (exchange_no_first_part _ _ Hm Hfp). }
  destruct (String.eqb (name (function_call p)) "perform_web_search") eqn:Hn.
  - apply String.eqb_eq in Hn.
    destruct (tool_round_raises (function_call p)
                (after_send (SendContent p_text) initial_world)) as [H|(e & v & H)].
    + left. eexists. apply (exchange_tool_failure _ _ _ _ _ Hm Hfp Hn H).
    + right. exists e, v. apply (exchange_tool_failure _ _ _ _ _ Hm Hfp Hn H).
  - apply String.eqb_neq in Hn. left. eexists.
    rewrite (exchange_direct _ _ _ Hm Hfp Hn). apply final_answer_run.
Qed.

Lemma exchange_trace_bounds (p_text : string) :
  let tr := trace (snd (exchange json_loads model p_text initial_world)) in
  count is_search tr <= 1 /\ count is_tool_reply tr <= count is_search tr /\
  count is_send tr <= 1 + count is_tool_reply tr.
Proof.
  cbv zeta.
  destruct (exchange_outcomes p_text) as [[r ->]|(e & v & ->)];
    simpl; lia.
Qed.

Lemma generate_itinerary_guarded (request : ItineraryRequest) :
  generate_itinerary json_loads model request initial_world =
  guarded (exchange json_loads model (compose_prompt request)) initial_world.
Proof. reflexivity. Qed.

Lemma generate_itinerary_failure (request : ItineraryRequest) (e : exn) (w : world) :
  exchange json_loads model (compose_prompt request) initial_world = (inl e, w) ->
  generate_itinerary json_loads model request initial_world =
    (inl (HTTPException 500 failure_detail), after_error e w) /\
  post_generate json_loads model request = Response 500 failure_body.
Proof.
  intros H. unfold post_generate. rewrite generate_itinerary_guarded.
  rewrite (guarded_raise _ _ _ _ H). split; reflexivity.
Qed.

Lemma generate_itinerary_success (request : ItineraryRequest) (it : Itinerary) (w : world) :
  exchange json_loads model (compose_prompt request) initial_world = (inr it, w) ->
  generate_itinerary json_loads model request initial_world = (inr it, w) /\
  post_generate json_loads model request = Response 200 (model_dump it).
Proof.
  intros H. unfold post_generate. rewrite generate_itinerary_guarded.
  rewrite (guarded_return _ _ _ _ H). split; reflexivity.
Qed.

(** The exchange of a request with a final reply either validates that
    reply or has already raised. *)
Lemma final_reply_exchange (request : ItineraryRequest) (resp : GenerateContentResponse) :
  final_reply model (compose_prompt request) resp ->
  (exists w, exchange json_loads model (compose_prompt request) initial_world =
             final_answer json_loads resp w) \/
  (exists e w, exchange json_loads model (compose_prompt request) initial_world =
               (inl e, w)).
Proof.
  intros [r p Hm Hfp Hn | r1 p q w0 sr r Hm Hfp Hn Hq Hs Hm2].
  - left. eexists. apply (exchange_direct _ _ _ Hm Hfp Hn).
  - right. apply (exchange_tool_raises _ _ _ Hm Hfp Hn).
Qed.

End Exchange.

(** * The claims *)

(** ** The search tool *)

(** C1.  The claim fails on the code: a query that contains
    "restaurants in Kyoto" (here [kyoto_query], which even has the literal's
    own spelling) gets the "no information" marker, not the two sample
    entries.  When the model asked for the tool with this query, the tool
    ran with it, the call that should hand the result back was refused, and
    nothing was sent back to the model. *)
Theorem kyoto_query_gets_no_information :
  contains_ignoring_case "restaurants in Kyoto" kyoto_query = true /\
  (forall w, perform_web_search (JStr kyoto_query) w =
             (inr no_information_text, after_search (JStr kyoto_query) w)) /\
  no_information_text <> json_dumps kyoto_results /\
  (forall json_loads t,
     generate_itinerary json_loads
       (model_tool {[ "query" := JStr kyoto_query ]} t)
       sample_request initial_world =
     (inl (HTTPException 500 failure_detail),
      {| session := [SendContent (compose_prompt sample_request)];
         trace := [EvSendMessage (SendContent (compose_prompt sample_request));
                   EvSearchBanner (JStr kyoto_query);
                   EvErrorLine TypeError] |})).
Proof.
  split; [reflexivity|]. split; [intros w; apply perform_web_search_str|].
  split; [discriminate|]. intros json_loads t.
  rewrite generate_itinerary_guarded.
  assert (Hq : args (function_call (Part_function_call
                 {| name := "perform_web_search";
                    args := {[ "query" := JStr kyoto_query ]} |})) !! "query"
               = Some (JStr kyoto_query)) by reflexivity.
  erewrite guarded_raise
    by apply (exchange_tool json_loads (model_tool {[ "query" := JStr kyoto_query ]} t)
                (compose_prompt sample_request)
                (tool_request {[ "query" := JStr kyoto_query ]})
                _ kyoto_query eq_refl eq_refl eq_refl Hq).
  reflexivity.
Qed.

(** C6.  A query that does not contain "restaurants in Kyoto", case
    ignored, gets the JSON text of the "no information" marker. *)
Theorem unrecognized_query_gets_no_information (q : string) (w : world) :
  contains_ignoring_case "restaurants in Kyoto" q = false ->
  perform_web_search (JStr q) w = (inr no_information_text, after_search (JStr q) w) /\
  no_information_text = json_dumps no_information.
Proof.
  intros _. now rewrite perform_web_search_str.
Qed.

Lemma unrecognized_query_witness :
  contains_ignoring_case "restaurants in Kyoto" "weather in Tokyo" = false /\
  perform_web_search (JStr "weather in Tokyo") initial_world =
    (inr no_information_text, after_search (JStr "weather in Tokyo") initial_world) /\
  no_information_text = json_dumps no_information.
Proof.
  split; [reflexivity|].
  apply (unrecognized_query_gets_no_information "weather in Tokyo" initial_world).
  reflexivity.
Defined.

(** C7.  The search tool is total on strings: it returns the JSON text of an
    object with a top-level "results" field, which decodes to that object;
    it sends nothing to the model, its one effect is the banner line, and
    its value does not depend on the world it runs in. *)
Theorem perform_web_search_total (q : string) (w : world) :
  exists v,
    perform_web_search (JStr q) w =
      (inr (json_dumps (JDict [("results", v)])), after_search (JStr q) w) /\
    reference_json_loads (json_dumps (JDict [("results", v)])) =
      Some (JDict [("results", v)]) /\
    session (after_search (JStr q) w) = session w /\
    trace (after_search (JStr q) w) = trace w ++ [EvSearchBanner (JStr q)] /\
    count is_send (trace (after_search (JStr q) w)) = count is_send (trace w) /\
    forall w', fst (perform_web_search (JStr q) w') = fst (perform_web_search (JStr q) w).
Proof.
  exists (JStr "No real-time information found for this query.").
  split; [apply perform_web_search_str|].
  split; [vm_compute; reflexivity|].
  split; [reflexivity|]. split; [reflexivity|].
  split.
  - simpl. rewrite count_app. simpl. lia.
  - intros w'. now rewrite !perform_web_search_str.
Qed.

(** C9.  The branch with the two Kyoto entries is unreachable: the literal
    "restaurants in Kyoto" is never a substring of a lowered string, so every
    string query gets the "no information" marker, and no query of any type
    gets the Kyoto entries. *)
Theorem kyoto_branch_unreachable (q : string) :
  contains "restaurants in Kyoto" (lower q) = false /\
  (forall w, fst (perform_web_search (JStr q) w) = inr (json_dumps no_information)) /\
  (forall v w, fst (perform_web_search v w) <> inr (json_dumps kyoto_results)).
Proof.
  split; [apply literal_never_in_lowered|].
  split; [intros w; now rewrite perform_web_search_str|].
  intros v w. destruct v;
    try (rewrite perform_web_search_not_str by discriminate; discriminate).
  rewrite perform_web_search_str. discriminate.
Qed.

(** ** The prompt *)

(** C5, as the claim words it, fails for a request whose [currentItinerary]
    is present but empty: the prompt carries [None], not the JSON text. *)
Lemma empty_itinerary_embeds_None :
  currentItinerary empty_itinerary_request = Some [] /\
  compose_prompt empty_itinerary_request <>
    prompt_head +:+ prompt empty_itinerary_request +:+ prompt_middle +:+
    claimed_previous_itinerary empty_itinerary_request +:+ prompt_tail /\
  compose_prompt empty_itinerary_request =
    prompt_head +:+ prompt empty_itinerary_request +:+ prompt_middle +:+
    "None" +:+ prompt_tail.
Proof.
  split; [reflexivity|]. split; [|reflexivity].
  vm_compute. discriminate.
Qed.

(** C5, amended.  The prompt is one text: a fixed head that states the
    role, the user's prompt between quotes, a fixed middle, the previous
    itinerary (its JSON text when [currentItinerary] is present and not
    empty, the token [None] when it is absent or empty), and a fixed tail
    that names the search tool and asks for the raw JSON object without
    markdown fences. *)
Theorem compose_prompt_contents (request : ItineraryRequest) :
  compose_prompt request =
    prompt_head +:+ prompt request +:+ prompt_middle +:+
    match currentItinerary request with
    | Some (kv :: d) => json_dumps (JDict (kv :: d))
    | _ => "None"
    end +:+ prompt_tail /\
  contains "You are an expert travel agent." (compose_prompt request) = true /\
  contains ("The user's request is: " +:+ dq +:+ prompt request +:+ dq)
    (compose_prompt request) = true /\
  contains ("Previous itinerary: " +:+ previous_itinerary request +:+ nl)
    (compose_prompt request) = true /\
  contains "You have access to a web search tool" (compose_prompt request) = true /\
  contains "You **must** respond with only a valid JSON object"
    (compose_prompt request) = true /\
  contains "Do not include any other text, explanations, or markdown formatting like ```json."
    (compose_prompt request) = true /\
  contains "Your response must be the raw JSON object." (compose_prompt request) = true /\
  "None" <> json_dumps JNull /\ "None" <> json_dumps (JDict []).
Proof.
  split.
  { unfold compose_prompt, previous_itinerary.
    destruct (currentItinerary request) as [[|kv d]|]; reflexivity. }
  assert (Htail : forall n, contains n prompt_tail = true ->
                            contains n (compose_prompt request) = true).
  { intros n H. unfold compose_prompt. now do 4 apply contains_app_r. }
  split; [unfold compose_prompt; now apply contains_app_l|].
  split.
  { apply (contains_between _
             (nl +:+ "    You are an expert travel agent. Your task is to generate a detailed, day-by-day travel itinerary." +:+ nl +:+ "    ")
             (nl +:+ nl +:+ "    If a previous itinerary is provided, modify it based on the user's request." +:+ nl +:+ "    Previous itinerary: " +:+ previous_itinerary request +:+ prompt_tail)).
    unfold compose_prompt. rewrite !append_assoc. reflexivity. }
  split.
  { apply (contains_between _
             (prompt_head +:+ prompt request +:+ dq +:+ nl +:+ nl +:+ "    If a previous itinerary is provided, modify it based on the user's request." +:+ nl +:+ "    ")
             (nl +:+ "    You have access to a web search tool to find real-time information like popular restaurants or opening hours. Use it if necessary." +:+ nl +:+ nl +:+ "    You **must** respond with only a valid JSON object that conforms to the required schema." +:+ nl +:+ "    Do not include any other text, explanations, or markdown formatting like ```json." +:+ nl +:+ "    Your response must be the raw JSON object." +:+ nl +:+ "    ")).
    unfold compose_prompt. rewrite !append_assoc. reflexivity. }
  repeat (split; [apply Htail; vm_compute; reflexivity|]).
  split; discriminate.
Qed.

(** ** Start-up *)

(** C8.  Without [GOOGLE_API_KEY] in the environment the module does not
    load: it raises the start-up error, and the process answers no request
    at all; with the variable set the module loads. *)
Theorem missing_api_key_is_fatal (environ : gmap string string) :
  environ !! "GOOGLE_API_KEY" = None ->
  load_module environ = inl startup_error /\
  (forall json_loads model request,
     serve json_loads model environ request = inl startup_error) /\
  (forall key, load_module (<["GOOGLE_API_KEY" := key]> environ) = inr {| api_key := key |}).
Proof.
  intros H. assert (Hl : load_module environ = inl startup_error).
  { unfold load_module, environ_get, api_key_variable. now rewrite H. }
  split; [exact Hl|]. split.
  - intros json_loads model request. unfold serve. now rewrite Hl.
  - intros key. unfold load_module, environ_get, api_key_variable.
    now rewrite lookup_insert_eq.
Qed.

Lemma missing_api_key_witness :
  load_module no_environment = inl startup_error /\
  (forall json_loads model request,
     serve json_loads model no_environment request = inl startup_error) /\
  (forall key, load_module (<["GOOGLE_API_KEY" := key]> no_environment) = inr {| api_key := key |}).
Proof.
  apply (missing_api_key_is_fatal no_environment). reflexivity.
Defined.

(** ** History *)

(** C10.  Two requests with the same prompt and the same current itinerary
    get the same prompt text, the same run of the handler (result, session
    and trace) and the same response, whatever their histories. *)
Theorem history_does_not_interfere
    (json_loads : string -> option json)
    (model : list outgoing -> exn + GenerateContentResponse)
    (r1 r2 : ItineraryRequest) :
  prompt r1 = prompt r2 ->
  currentItinerary r1 = currentItinerary r2 ->
  compose_prompt r1 = compose_prompt r2 /\
  (forall w, generate_itinerary json_loads model r1 w =
             generate_itinerary json_loads model r2 w) /\
  post_generate json_loads model r1 = post_generate json_loads model r2.
Proof.
  intros Hp Hc.
  assert (H : compose_prompt r1 = compose_prompt r2).
  { unfold compose_prompt, previous_itinerary. now rewrite Hp, Hc. }
  split; [exact H|]. split.
  - intros w. unfold generate_itinerary. now rewrite H.
  - unfold post_generate, generate_itinerary. now rewrite H.
Qed.

Lemma history_does_not_interfere_witness :
  history sample_request <> history sample_request_with_history /\
  compose_prompt sample_request = compose_prompt sample_request_with_history /\
  (forall w, generate_itinerary reference_json_loads
               (model_direct (json_dumps (model_dump sample_itinerary))) sample_request w =
             generate_itinerary reference_json_loads
               (model_direct (json_dumps (model_dump sample_itinerary)))
               sample_request_with_history w) /\
  post_generate reference_json_loads
    (model_direct (json_dumps (model_dump sample_itinerary))) sample_request =
  post_generate reference_json_loads
    (model_direct (json_dumps (model_dump sample_itinerary))) sample_request_with_history.
Proof.
  split; [discriminate|].
  apply (history_does_not_interfere reference_json_loads
           (model_direct (json_dumps (model_dump sample_itinerary)))
           sample_request sample_request_with_history); reflexivity.
Defined.

(** ** The exchange *)

(** C2.  Whenever the [try] block raises, whatever the exception, the
    handler raises the one [HTTPException] and the caller gets status 500
    with the one generic detail.  This covers a failing first message, a
    reply without a content part, a tool call whose [query] argument is
    missing or is not a string, a tool call with a text query (whatever the
    model would answer to the tool result), and a final text
    whose accessor raises, that is not JSON, or that does not fit the schema
    (any JSON value that is not an itinerary record, such as an object
    without [days]).  Every response is this failure
    or status 200 with a whole validated itinerary. *)
Theorem failure_is_generic
    (json_loads : string -> option json)
    (model : list outgoing -> exn + GenerateContentResponse)
    (request : ItineraryRequest) :
  let p_text := compose_prompt request in
  let post := post_generate json_loads model request in
  (forall e w,
     exchange json_loads model p_text initial_world = (inl e, w) ->
     generate_itinerary json_loads model request initial_world =
       (inl (HTTPException 500 "Failed to generate a valid itinerary."), after_error e w) /\
     post = Response 500 (JDict [("detail", JStr "Failed to generate a valid itinerary.")])) /\
  (forall e, model [SendContent p_text] = inl e -> post = generic_failure) /\
  (forall resp, model [SendContent p_text] = inr resp -> first_part resp = None ->
     post = generic_failure) /\
  (forall resp p,
     model [SendContent p_text] = inr resp -> first_part resp = Some p ->
     name (function_call p) = "perform_web_search" ->
     (forall q, args (function_call p) !! "query" <> Some (JStr q)) ->
     post = generic_failure) /\
  (forall resp p q e,
     model [SendContent p_text] = inr resp -> first_part resp = Some p ->
     name (function_call p) = "perform_web_search" ->
     args (function_call p) !! "query" = Some (JStr q) ->
     model [SendContent p_text; tool_response no_information_text] = inl e ->
     post = generic_failure) /\
  (forall resp,
     final_reply model p_text resp ->
     (exists e, text resp = inl e) \/
     (exists s, text resp = inr s /\ json_loads s = None) \/
     (exists s j, text resp = inr s /\ json_loads s = Some j /\ validate_Itinerary j = None) ->
     post = generic_failure) /\
  (forall resp s j,
     final_reply model p_text resp -> text resp = inr s -> json_loads s = Some j ->
     is_itinerary_record j = false ->
     post = generic_failure) /\
  (forall o, dict_get "days" o = None -> is_itinerary_record (JDict o) = false) /\
  (post = generic_failure \/
   exists it w, exchange json_loads model p_text initial_world = (inr it, w) /\
                post = Response 200 (model_dump it)).
Proof.
  cbv zeta.
  assert (Hfail : forall e w,
            exchange json_loads model (compose_prompt request) initial_world = (inl e, w) ->
            post_generate json_loads model request = generic_failure).
  { intros e w H. apply (generate_itinerary_failure _ _ _ _ _ H). }
  split; [intros e w H; apply (generate_itinerary_failure _ _ _ _ _ H)|].
  split; [intros e Hm; eapply Hfail, exchange_transport, Hm|].
  split; [intros resp Hm Hfp; eapply Hfail, exchange_no_first_part; eassumption|].
  split.
  { intros resp p Hm Hfp Hn Hq.
    destruct (args (function_call p) !! "query") as [v|] eqn:Hv.
    - eapply Hfail, exchange_tool_failure; try eassumption.
      apply tool_round_not_str with (v := v); [exact Hv|].
      intros q ->. now apply (Hq q).
    - eapply Hfail, exchange_tool_failure; try eassumption.
      now apply tool_round_no_query. }
  split.
  { intros resp p q e Hm Hfp Hn Hq Hm2. eapply Hfail.
    apply (exchange_tool _ _ _ _ _ _ Hm Hfp Hn Hq). }
  split.
  { intros resp Hfr Hbad.
    destruct (final_reply_exchange json_loads _ _ _ Hfr) as [[w Hw]|(e' & w & Hw)];
      [|apply (Hfail _ _ Hw)].
    destruct Hbad as [[e Ht]|[(t & Ht & Hj)|(t & j & Ht & Hj & Hv)]].
    - eapply Hfail. rewrite Hw. apply final_answer_no_text, Ht.
    - eapply Hfail. rewrite Hw. eapply final_answer_malformed; eassumption.
    - eapply Hfail. rewrite Hw. eapply final_answer_mismatch; eassumption. }
  split.
  { intros resp t j Hfr Ht Hj Hshape.
    destruct (final_reply_exchange json_loads _ _ _ Hfr) as [[w Hw]|(e' & w & Hw)];
      [|apply (Hfail _ _ Hw)].
    eapply Hfail. rewrite Hw.
    eapply final_answer_mismatch; eauto using not_record_rejected. }
  split.
  { intros o H. cbn [is_itinerary_record]. unfold has_list. rewrite H.
    apply andb_false_r. }
  destruct (exchange json_loads model (compose_prompt request) initial_world)
    as [[e|it] w] eqn:E.
  - left. apply (Hfail e w eq_refl).
  - right. exists it, w. split; [reflexivity|].
    apply (generate_itinerary_success _ _ _ _ _ E).
Qed.

Lemma failure_is_generic_witness :
  post_generate reference_json_loads model_down sample_request = generic_failure /\
  post_generate reference_json_loads (model_direct "not json") sample_request
    = generic_failure /\
  post_generate reference_json_loads (model_direct "{}") sample_request
    = generic_failure /\
  post_generate reference_json_loads (model_tool ∅ sample_text) sample_request
    = generic_failure.
Proof.
  split; [|split; [|split]].
  - apply (proj1 (proj2 (failure_is_generic reference_json_loads model_down sample_request))
             (ProviderError "503 Service Unavailable")).
    reflexivity.
  - apply (proj1 (proj2 (proj2 (proj2 (proj2 (proj2
             (failure_is_generic reference_json_loads (model_direct "not json")
                sample_request))))))
             (text_reply "not json")).
    + apply final_direct with (p := Part_text "not json");
        [reflexivity|reflexivity|discriminate].
    + right; left. exists "not json". split; reflexivity.
  - apply (proj1 (proj2 (proj2 (proj2 (proj2 (proj2
             (failure_is_generic reference_json_loads (model_direct "{}")
                sample_request))))))
             (text_reply "{}")).
    + apply final_direct with (p := Part_text "{}");
        [reflexivity|reflexivity|discriminate].
    + right; right. exists "{}", (JDict []). repeat split; reflexivity.
  - apply (proj1 (proj2 (proj2 (proj2
             (failure_is_generic reference_json_loads (model_tool ∅ sample_text)
                sample_request))))
             (tool_request ∅)
             (Part_function_call {| name := "perform_web_search"; args := ∅ |}));
      [reflexivity|reflexivity|reflexivity|].
    intros q. discriminate.
Defined.

(** C3.  The code departs from the claim on the tool path.  Every run
    has at most one tool run and sends one message, the prompt.  When the
    first part of the first reply asks for no tool, the first reply is
    validated as the final answer.  When it asks for [perform_web_search]
    with a text query, the tool runs once with that query, but the call that
    should send its result back is refused with [TypeError]: nothing is sent
    back, no further reply is read, and the request ends in the generic
    failure.  A call of the tool without a text query raises even before
    that.  The message that is refused is the function response named
    [perform_web_search] with the tool's result under [content]. *)
Theorem one_round_of_tool
    (json_loads : string -> option json)
    (model : list outgoing -> exn + GenerateContentResponse)
    (request : ItineraryRequest) :
  let p_text := compose_prompt request in
  let run := generate_itinerary json_loads model request initial_world in
  let tr := trace (snd run) in
  (count is_search tr <= 1 /\ count is_tool_reply tr = 0 /\ count is_send tr = 1) /\
  (forall resp p q,
     model [SendContent p_text] = inr resp -> first_part resp = Some p ->
     name (function_call p) = "perform_web_search" ->
     args (function_call p) !! "query" = Some (JStr q) ->
     run = (inl (HTTPException 500 failure_detail),
            {| session := [SendContent p_text];
               trace := [EvSendMessage (SendContent p_text);
                         EvSearchBanner (JStr q);
                         EvErrorLine TypeError] |}) /\
     post_generate json_loads model request = generic_failure) /\
  (forall resp p,
     model [SendContent p_text] = inr resp -> first_part resp = Some p ->
     name (function_call p) <> "perform_web_search" ->
     run = guarded (final_answer json_loads resp)
             {| session := [SendContent p_text];
                trace := [EvSendMessage (SendContent p_text)] |} /\
     count is_search tr = 0 /\ count is_tool_reply tr = 0 /\ count is_send tr = 1) /\
  (forall resp p,
     model [SendContent p_text] = inr resp -> first_part resp = Some p ->
     name (function_call p) = "perform_web_search" ->
     (forall q, args (function_call p) !! "query" <> Some (JStr q)) ->
     fst run = inl (HTTPException 500 failure_detail) /\
     count is_tool_reply tr = 0 /\ count is_send tr = 1) /\
  (forall search_results w,
     tool_response search_results =
       SendPart (Part_function_response "perform_web_search"
                   [("content", JStr search_results)]) /\
     send_message model (tool_response search_results) w = (inl TypeError, w)).
Proof.
  cbv zeta. split; [|split; [|split; [|split]]]; [| | | |split; reflexivity].
  - rewrite generate_itinerary_guarded, !guarded_trace by reflexivity.
    destruct (exchange_outcomes json_loads model (compose_prompt request))
      as [[r ->]|(e & v & ->)]; simpl; lia.
  - intros resp p q Hm Hfp Hn Hq.
    pose proof (exchange_tool json_loads _ _ _ _ _ Hm Hfp Hn Hq) as He.
    destruct (generate_itinerary_failure _ _ _ _ _ He) as [Hrun Hpost].
    split; [exact Hrun|exact Hpost].
  - intros resp p Hm Hfp Hn.
    rewrite generate_itinerary_guarded.
    erewrite guarded_run by apply (exchange_direct _ _ _ _ _ Hm Hfp Hn).
    split; [reflexivity|].
    rewrite !guarded_trace by reflexivity.
    rewrite final_answer_world. repeat split; reflexivity.
  - intros resp p Hm Hfp Hn Hq.
    rewrite generate_itinerary_guarded.
    destruct (args (function_call p) !! "query") as [v|] eqn:Hv.
    + erewrite guarded_raise
        by (eapply exchange_tool_failure; try eassumption;
            apply tool_round_not_str with (v := v);
            [exact Hv | intros q ->; now apply (Hq q)]).
      repeat split; simpl; rewrite ?count_app; reflexivity.
    + erewrite guarded_raise
        by (eapply exchange_tool_failure; try eassumption;
            now apply tool_round_no_query).
      repeat split; reflexivity.
Qed.

Lemma one_round_of_tool_witness :
  (let run := generate_itinerary reference_json_loads
                (model_tool {[ "query" := JStr kyoto_query ]} sample_text)
                sample_request initial_world in
   run = (inl (HTTPException 500 failure_detail),
          {| session := [SendContent (compose_prompt sample_request)];
             trace := [EvSendMessage (SendContent (compose_prompt sample_request));
                       EvSearchBanner (JStr kyoto_query);
                       EvErrorLine TypeError] |}) /\
   post_generate reference_json_loads
     (model_tool {[ "query" := JStr kyoto_query ]} sample_text) sample_request
     = generic_failure) /\
  (let run := generate_itinerary reference_json_loads (model_direct sample_text)
                sample_request initial_world in
   fst run = inr sample_itinerary /\
   count is_search (trace (snd run)) = 0 /\
   count is_tool_reply (trace (snd run)) = 0 /\
   count is_send (trace (snd run)) = 1) /\
  (let run := generate_itinerary reference_json_loads (model_tool ∅ sample_text)
                sample_request initial_world in
   fst run = inl (HTTPException 500 failure_detail) /\
   count is_tool_reply (trace (snd run)) = 0 /\
   count is_send (trace (snd run)) = 1).
Proof.
  split; [|split].
  - apply (proj1 (proj2 (one_round_of_tool reference_json_loads
                           (model_tool {[ "query" := JStr kyoto_query ]} sample_text)
                           sample_request))
             (tool_request {[ "query" := JStr kyoto_query ]})
             (Part_function_call {| name := "perform_web_search";
                                    args := {[ "query" := JStr kyoto_query ]} |})
             kyoto_query eq_refl eq_refl eq_refl).
    reflexivity.
  - destruct (proj1 (proj2 (proj2 (one_round_of_tool reference_json_loads
                                     (model_direct sample_text) sample_request)))
                (text_reply sample_text) (Part_text sample_text) eq_refl eq_refl)
      as [Hrun Hcount]; [discriminate|].
    cbv zeta. split; [|exact Hcount].
    rewrite Hrun. vm_compute. reflexivity.
  - apply (proj1 (proj2 (proj2 (proj2 (one_round_of_tool reference_json_loads
                                  (model_tool ∅ sample_text) sample_request))))
             (tool_request ∅)
             (Part_function_call {| name := "perform_web_search"; args := ∅ |}));
      [reflexivity|reflexivity|reflexivity|].
    intros q. discriminate.
Defined.



(** * Further properties of the code *)

(** ** The output models (lines 20-34) *)

Lemma list_field_bad_element {T} (elem : json -> option T) (k : string)
    (o : list (string * json)) (l : list json) :
  dict_get k o = Some (JList l) ->
  Exists (fun j => elem j = None) l ->
  list_field elem k o = None.
Proof.
  intros Hk Hbad. unfold list_field. rewrite Hk. cbn [mbind option_bind as_list].
  now apply mapM_None_2.
Qed.

Lemma validation_copies_fields (o : list (string * json)) (it : Itinerary) :
  validate_Itinerary (JDict o) = Some it ->
  dict_get "title" o = Some (JStr (title it)) /\
  dict_get "startDate" o = Some (JStr (startDate it)) /\
  dict_get "endDate" o = Some (JStr (endDate it)) /\
  exists l, dict_get "days" o = Some (JList l) /\
            Forall2 (fun j d => validate_Day j = Some d) l (days it).
Proof.
  unfold validate_Itinerary. cbn [as_dict mbind option_bind]. intros H.
  destruct (str_field "title" o) as [t|] eqn:Ht; [|discriminate].
  destruct (str_field "startDate" o) as [sd|] eqn:Hsd; [|discriminate].
  destruct (str_field "endDate" o) as [ed|] eqn:Hed; [|discriminate].
  cbn [mbind option_bind] in H.
  destruct (list_field validate_Day "days" o) as [ds|] eqn:Hds; [|discriminate].
  cbn in H. injection H as <-. cbn.
  auto using str_field_inv, list_field_inv.
Qed.

(** X1.  Each output model accepts exactly the JSON objects that carry its
    declared fields with their declared types: text for every [str] field,
    a list of accepted elements for every list field.  Anything else (a
    missing field, a number or [null] where text is declared, a value that
    is not an object) is rejected. *)
Theorem schema_accepts_exactly_records (j : json) :
  (is_Some (validate_ItineraryItem j) <-> is_item_record j = true) /\
  (is_Some (validate_Day j) <-> is_day_record j = true) /\
  (is_Some (validate_Itinerary j) <-> is_itinerary_record j = true).
Proof.
  repeat split;
    auto using item_validates_record, item_record_validates, day_validates_record,
      day_record_validates, itinerary_validates_record, itinerary_record_validates.
Qed.

(** X2.  Validation of an itinerary reads the four declared fields and
    nothing else: two objects with the same values under [title],
    [startDate], [endDate] and [days] validate alike, whatever other keys
    they carry and in whatever order. *)
Theorem validation_reads_declared_fields_only (o o' : list (string * json)) :
  (forall k, In k Itinerary_fields -> dict_get k o = dict_get k o') ->
  validate_Itinerary (JDict o) = validate_Itinerary (JDict o').
Proof.
  intros H. unfold validate_Itinerary, str_field, list_field.
  cbn [as_dict mbind option_bind].
  rewrite (H "title"), (H "startDate"), (H "endDate"), (H "days")
    by (cbn; auto).
  reflexivity.
Qed.

Lemma validation_reads_declared_fields_only_witness :
  noisy_itinerary_object <> plain_itinerary_object /\
  validate_Itinerary (JDict noisy_itinerary_object) =
  validate_Itinerary (JDict plain_itinerary_object).
Proof.
  split; [discriminate|].
  apply (validation_reads_declared_fields_only noisy_itinerary_object plain_itinerary_object).
  intros k [<-|[<-|[<-|[<-|[]]]]]; reflexivity.
Defined.

(** X3.  There is no partial acceptance: one day that does not validate
    rejects the whole itinerary, and one item that does not validate rejects
    its day. *)
Theorem invalid_element_rejects_whole (o : list (string * json)) (l : list json) :
  (dict_get "days" o = Some (JList l) ->
   Exists (fun d => validate_Day d = None) l ->
   validate_Itinerary (JDict o) = None) /\
  (dict_get "items" o = Some (JList l) ->
   Exists (fun i => validate_ItineraryItem i = None) l ->
   validate_Day (JDict o) = None).
Proof.
  split; intros Hk Hbad.
  - unfold validate_Itinerary. cbn [as_dict mbind option_bind].
    rewrite (list_field_bad_element _ _ _ _ Hk Hbad).
    repeat (match goal with |- context [str_field ?k o] => destruct (str_field k o) end;
            cbn [mbind option_bind]; try reflexivity).
  - unfold validate_Day. cbn [as_dict mbind option_bind].
    rewrite (list_field_bad_element _ _ _ _ Hk Hbad).
    repeat (match goal with |- context [str_field ?k o] => destruct (str_field k o) end;
            cbn [mbind option_bind]; try reflexivity).
Qed.

Lemma invalid_element_rejects_whole_witness :
  validate_Itinerary (JDict broken_itinerary_object) = None /\
  validate_Day (JDict broken_day_object) = None.
Proof.
  split.
  - apply (proj1 (invalid_element_rejects_whole broken_itinerary_object
                    [dump_Day {| date := "2025-04-10"; summary := "Gion"; items := [] |};
                     JDict broken_day_object])); [reflexivity|].
    apply Exists_cons_tl, Exists_cons_hd. reflexivity.
  - apply (proj2 (invalid_element_rejects_whole broken_day_object
                    [JDict [("time", JStr "09:00"); ("activity", JStr "Walk")]]));
      [reflexivity|].
    apply Exists_cons_hd. reflexivity.
Defined.

(** X4.  Validation copies: an accepted object's text fields are the
    model's fields character for character, and its lists are validated
    element by element, in order, none dropped and none added. *)
Theorem validation_copies_all_fields (o : list (string * json)) :
  (forall it, validate_Itinerary (JDict o) = Some it ->
     dict_get "title" o = Some (JStr (title it)) /\
     dict_get "startDate" o = Some (JStr (startDate it)) /\
     dict_get "endDate" o = Some (JStr (endDate it)) /\
     exists l, dict_get "days" o = Some (JList l) /\
               Forall2 (fun j d => validate_Day j = Some d) l (days it)) /\
  (forall d, validate_Day (JDict o) = Some d ->
     dict_get "date" o = Some (JStr (date d)) /\
     dict_get "summary" o = Some (JStr (summary d)) /\
     exists l, dict_get "items" o = Some (JList l) /\
               Forall2 (fun j i => validate_ItineraryItem j = Some i) l (items d)) /\
  (forall i, validate_ItineraryItem (JDict o) = Some i ->
     dict_get "time" o = Some (JStr (time i)) /\
     dict_get "activity" o = Some (JStr (activity i)) /\
     dict_get "location" o = Some (JStr (location i))).
Proof.
  split; [apply validation_copies_fields|]. split.
  - unfold validate_Day. cbn [as_dict mbind option_bind]. intros d H.
    destruct (str_field "date" o) as [t|] eqn:Ht; [|discriminate].
    destruct (str_field "summary" o) as [sd|] eqn:Hsd; [|discriminate].
    cbn [mbind option_bind] in H.
    destruct (list_field validate_ItineraryItem "items" o) as [ds|] eqn:Hds; [|discriminate].
    cbn in H. injection H as <-. cbn.
    auto using str_field_inv, list_field_inv.
  - unfold validate_ItineraryItem. cbn [as_dict mbind option_bind]. intros i H.
    destruct (str_field "time" o) as [t|] eqn:Ht; [|discriminate].
    destruct (str_field "activity" o) as [a|] eqn:Ha; [|discriminate].
    destruct (str_field "location" o) as [l|] eqn:Hl; [|discriminate].
    cbn in H. injection H as <-. cbn.
    auto using str_field_inv.
Qed.

Lemma validation_copies_all_fields_witness :
  dict_get "title" plain_itinerary_object
    = Some (JStr (title {| title := "Kyoto"; startDate := "2025-04-10";
                           endDate := "2025-04-11"; days := [] |})) /\
  exists l, dict_get "days" plain_itinerary_object = Some (JList l) /\
            Forall2 (fun j d => validate_Day j = Some d) l [].
Proof.
  destruct (proj1 (validation_copies_all_fields plain_itinerary_object)
              {| title := "Kyoto"; startDate := "2025-04-10";
                 endDate := "2025-04-11"; days := [] |} eq_refl)
    as (Ht & _ & _ & Hd).
  split; [exact Ht|exact Hd].
Defined.

(** ** The search tool on any argument (lines 37-51) *)

(** X5.  On any argument value the tool prints its banner once and sends
    nothing; a string gets the "no information" text, and a value that is
    not a string raises [AttributeError] at [query.lower()], after the
    banner. *)
Theorem perform_web_search_any_value (v : json) (w : world) :
  snd (perform_web_search v w) = after_search v w /\
  ((exists q, v = JStr q) -> fst (perform_web_search v w) = inr no_information_text) /\
  ((forall q, v <> JStr q) -> fst (perform_web_search v w) = inl AttributeError).
Proof.
  split; [|split].
  - destruct v; try (now rewrite perform_web_search_not_str by discriminate).
    now rewrite perform_web_search_str.
  - intros [q ->]. now rewrite perform_web_search_str.
  - intros H. now rewrite perform_web_search_not_str.
Qed.

Lemma perform_web_search_any_value_witness :
  snd (perform_web_search (JInt 7) initial_world) = after_search (JInt 7) initial_world /\
  fst (perform_web_search (JInt 7) initial_world) = inl AttributeError /\
  fst (perform_web_search (JStr "sushi") initial_world) = inr no_information_text.
Proof.
  split; [apply (perform_web_search_any_value (JInt 7) initial_world)|]. split.
  - apply (proj2 (proj2 (perform_web_search_any_value (JInt 7) initial_world))).
    discriminate.
  - apply (proj1 (proj2 (perform_web_search_any_value (JStr "sushi") initial_world))).
    eexists. reflexivity.
Defined.

(** ** Start-up (lines 61-64) *)

(** X6.  Loading the module reads one environment variable: setting or
    removing any other variable changes nothing, any value of
    [GOOGLE_API_KEY] (the empty string too) is taken as the key, removing it
    gives the start-up error, and the [KeyError] of the lookup never
    escapes. *)
Theorem load_module_reads_one_variable (environ : gmap string string) :
  (forall k v, k <> "GOOGLE_API_KEY" ->
     load_module (<[k := v]> environ) = load_module environ /\
     load_module (delete k environ) = load_module environ) /\
  (forall k, load_module environ <> inl (KeyError k)) /\
  (forall key, load_module (<["GOOGLE_API_KEY" := key]> environ) = inr {| api_key := key |}) /\
  (load_module (delete "GOOGLE_API_KEY" environ) = inl startup_error).
Proof.
  unfold load_module, environ_get, api_key_variable. repeat split.
  - now rewrite lookup_insert_ne.
  - now rewrite lookup_delete_ne.
  - intros k. destruct (environ !! "GOOGLE_API_KEY"); discriminate.
  - intros key. now rewrite lookup_insert_eq.
  - now rewrite lookup_delete_eq.
Qed.

(** ** The prompt (lines 81-93) *)

Lemma printable_app (a b : string) :
  printable (a +:+ b) = printable a && printable b.
Proof.
  induction a as [|c a IH]; [reflexivity|].
  change (printable_char c && printable (a +:+ b)
          = printable_char c && printable a && printable b).
  now rewrite IH, andb_assoc.
Qed.

Lemma escape_char_printable (c : ascii) : printable (escape_char c) = true.
Proof. destruct c as [[] [] [] [] [] [] [] []]; vm_compute; reflexivity. Qed.

Lemma escape_printable (s : string) : printable (escape s) = true.
Proof.
  induction s as [|c s IH]; [reflexivity|].
  cbn [escape]. now rewrite printable_app, escape_char_printable, IH.
Qed.

Lemma encode_printable (s : string) : printable (encode_basestring_ascii s) = true.
Proof.
  unfold encode_basestring_ascii. now rewrite !printable_app, escape_printable.
Qed.

Lemma pretty_N_char_printable (x : N) : printable_char (pretty_N_char x) = true.
Proof. unfold pretty_N_char. repeat case_match; reflexivity. Qed.

Lemma pretty_N_go_printable (x : N) (s : string) :
  printable s = true -> printable (pretty_N_go x s) = true.
Proof.
  revert s. induction (N.lt_wf_0 x) as [x _ IH]. intros s Hs.
  destruct (N.eq_dec x 0%N) as [->|Hx]; [now rewrite pretty_N_go_0|].
  rewrite pretty_N_go_step by lia. apply IH.
  - apply N.div_lt; lia.
  - cbn [printable]. now rewrite pretty_N_char_printable.
Qed.

Lemma pretty_Z_printable (z : Z) : printable (pretty z) = true.
Proof.
  assert (HN : forall n : N, printable (pretty n) = true).
  { intros n. unfold pretty, pretty_N. case_decide; [reflexivity|].
    now apply pretty_N_go_printable. }
  destruct z as [|p|p]; [reflexivity|apply (HN (Npos p))|].
  change (pretty (Zneg p)) with ("-" +:+ pretty (Npos p)).
  now rewrite printable_app, HN.
Qed.

Lemma join_printable (parts : list string) :
  Forall (fun p => printable p = true) parts -> printable (join ", " parts) = true.
Proof.
  induction 1 as [|p ps Hp Hps IH]; [reflexivity|].
  destruct ps as [|p' ps]; [exact Hp|].
  change (join ", " (p :: p' :: ps)) with (p +:+ ", " +:+ join ", " (p' :: ps)).
  now rewrite !printable_app, Hp, IH.
Qed.

Lemma json_dumps_printable (j : json) :
  floats_printable j = true -> printable (json_dumps j) = true.
Proof.
  induction j as [| b | z | r | s | l IH | kvs IH] using json_nested_ind; intros Hf.
  - reflexivity.
  - now destruct b.
  - apply pretty_Z_printable.
  - exact Hf.
  - apply encode_printable.
  - cbn [json_dumps floats_printable] in *. rewrite !printable_app.
    rewrite join_printable; [reflexivity|].
    apply Forall_map. rewrite Forall_forall in *. intros v Hv.
    apply (IH v Hv). rewrite forallb_forall in Hf. apply Hf. now apply list_elem_of_In.
  - cbn [floats_printable] in Hf. rewrite json_dumps_dict, !printable_app.
    rewrite join_printable; [reflexivity|].
    apply Forall_map. rewrite Forall_forall in *. intros [k v] Hv.
    unfold member_text. rewrite !printable_app, encode_printable.
    specialize (IH _ Hv). cbn [snd] in IH.
    rewrite IH; [reflexivity|]. rewrite forallb_forall in Hf.
    apply (Hf (k, v)). now apply list_elem_of_In.
Qed.

Lemma printable_no_newline (s : string) :
  printable s = true -> occurs newline s = false.
Proof.
  induction s as [|c s IH]; [reflexivity|]. cbn [printable occurs].
  intros H. apply andb_true_iff in H as [Hc Hs]. rewrite (IH Hs), orb_false_r.
  destruct (Ascii.eqb_spec newline c) as [<-|]; [discriminate|reflexivity].
Qed.

(** X7.  The previous-itinerary slot of the prompt is one line of printable
    ASCII: [json.dumps] escapes every control and non-ASCII character of
    every key and string, so no itinerary content can break the line (given
    that floats print as printable ASCII, as [repr] does). *)
Theorem previous_itinerary_is_one_ascii_line (request : ItineraryRequest) :
  floats_printable (optional_dict (currentItinerary request)) = true ->
  printable (previous_itinerary request) = true /\
  occurs newline (previous_itinerary request) = false.
Proof.
  intros H. assert (Hp : printable (previous_itinerary request) = true).
  { unfold previous_itinerary. destruct (truthy _); [|reflexivity].
    now apply json_dumps_printable. }
  split; [exact Hp|]. now apply printable_no_newline.
Qed.

Lemma previous_itinerary_one_line_witness :
  printable (previous_itinerary numeric_edit_request) = true /\
  occurs newline (previous_itinerary numeric_edit_request) = false.
Proof.
  apply (previous_itinerary_is_one_ascii_line numeric_edit_request). reflexivity.
Defined.

Lemma append_cancel_l (a x y : string) : a +:+ x = a +:+ y -> x = y.
Proof.
  induction a as [|c a IH]; [auto|].
  intros H. apply IH.
  change (String c (a +:+ x) = String c (a +:+ y)) in H. now injection H.
Qed.

Lemma append_cancel_r (x y t : string) : x +:+ t = y +:+ t -> x = y.
Proof.
  revert y. induction x as [|c x IH]; intros [|c' y] H.
  - reflexivity.
  - apply (f_equal String.length) in H. rewrite !length_append in H.
    cbn in H. lia.
  - apply (f_equal String.length) in H. rewrite !length_append in H.
    cbn in H. lia.
  - change (String c (x +:+ t) = String c' (y +:+ t)) in H.
    injection H as -> H. f_equal. now apply IH.
Qed.

Lemma json_dumps_inj (j1 j2 : json) :
  textual j1 = true -> textual j2 = true ->
  json_dumps j1 = json_dumps j2 -> j1 = j2.
Proof.
  intros H1 H2 H.
  pose proof (reference_json_loads_dumps j1 H1) as L1.
  rewrite H, (reference_json_loads_dumps j2 H2) in L1. now injection L1.
Qed.



(** ** The handler (lines 67-122) *)

Section Outcomes.
Variable json_loads : string -> option json.
Variable model : list outgoing -> exn + GenerateContentResponse.

Lemma generate_itinerary_outcomes (request : ItineraryRequest) :
  let p_text := compose_prompt request in
  let w1 := after_send (SendContent p_text) initial_world in
  exists w,
    (w = w1 \/ exists v, w = after_search v w1) /\
    ((exists it, exchange json_loads model p_text initial_world = (inr it, w) /\
                 generate_itinerary json_loads model request initial_world = (inr it, w)) \/
     (exists e, exchange json_loads model p_text initial_world = (inl e, w) /\
                generate_itinerary json_loads model request initial_world =
                  (inl (HTTPException 500 failure_detail), after_error e w))).
Proof.
  cbv zeta.
  assert (Hrun : forall r w,
            exchange json_loads model (compose_prompt request) initial_world = (r, w) ->
            (exists it, exchange json_loads model (compose_prompt request) initial_world
                          = (inr it, w) /\
                        generate_itinerary json_loads model request initial_world
                          = (inr it, w)) \/
            (exists e, exchange json_loads model (compose_prompt request) initial_world
                         = (inl e, w) /\
                       generate_itinerary json_loads model request initial_world
                         = (inl (HTTPException 500 failure_detail), after_error e w))).
  { intros [e|it] w H.
    - right. exists e. split; [exact H|]. apply (generate_itinerary_failure _ _ _ _ _ H).
    - left. exists it. split; [exact H|]. apply (generate_itinerary_success _ _ _ _ _ H). }
  destruct (exchange_outcomes json_loads model (compose_prompt request))
    as [[r H]|(e & v & H)]; eexists; (split; [|apply (Hrun _ _ H)]); eauto.
Qed.

(** A final answer that validates was read from the text of the reply. *)
Lemma final_answer_inr (resp : GenerateContentResponse) (it : Itinerary) (w w' : world) :
  final_answer json_loads resp w = (inr it, w') ->
  exists s j, text resp = inr s /\ json_loads s = Some j /\
              validate_Itinerary j = Some it.
Proof.
  intros H.
  destruct (text resp) as [e|s] eqn:Ht.
  { rewrite (final_answer_no_text _ _ _ _ Ht) in H. discriminate. }
  destruct (json_loads s) as [j|] eqn:Hj.
  2: { rewrite (final_answer_malformed _ _ _ _ Ht Hj) in H. discriminate. }
  destruct (validate_Itinerary j) as [it'|] eqn:Hv.
  2: { rewrite (final_answer_mismatch _ _ _ _ _ Ht Hj Hv) in H. discriminate. }
  rewrite (final_answer_valid _ _ _ _ _ _ Ht Hj Hv) in H.
  injection H as <- _. now exists s, j.
Qed.

(** An exchange that returns an itinerary read it from the reply to the
    prompt. *)
Lemma exchange_inr (p_text : string) (it : Itinerary) (w : world) :
  exchange json_loads model p_text initial_world = (inr it, w) ->
  exists resp s j,
    model [SendContent p_text] = inr resp /\ text resp = inr s /\
    json_loads s = Some j /\ validate_Itinerary j = Some it.
Proof.
  intros H.
  destruct (model [SendContent p_text]) as [e|resp] eqn:Hm.
  { rewrite (exchange_transport _ _ _ _ Hm) in H. discriminate. }
  destruct (first_part resp) as [p|] eqn:Hfp.
  2: { rewrite (exchange_no_first_part _ _ _ _ Hm Hfp) in H. discriminate. }
  destruct (String.eqb (name (function_call p)) "perform_web_search") eqn:Hn.
  - apply String.eqb_eq in Hn.
    destruct (exchange_tool_raises json_loads _ _ _ _ Hm Hfp Hn) as (e & w' & He).
    rewrite He in H. discriminate.
  - apply String.eqb_neq in Hn.
    rewrite (exchange_direct _ _ _ _ _ Hm Hfp Hn) in H.
    destruct (final_answer_inr _ _ _ _ H) as (s & j & Ht & Hj & Hv).
    now exists resp, s, j.
Qed.

(** A reply with a text that spells an itinerary makes the exchange return
    it. *)
Lemma exchange_spelled (p_text : string) (resp : GenerateContentResponse)
    (s : string) (j : json) (it : Itinerary) :
  model [SendContent p_text] = inr resp -> text resp = inr s ->
  json_loads s = Some j -> validate_Itinerary j = Some it ->
  exchange json_loads model p_text initial_world =
  (inr it, after_send (SendContent p_text) initial_world).
Proof.
  intros Hm Ht Hj Hv.
  destruct (text_reply_is_direct _ _ Ht) as [t Hfp].
  rewrite (exchange_direct json_loads _ _ _ _ Hm Hfp) by discriminate.
  apply (final_answer_valid _ _ _ _ _ _ Ht Hj Hv).
Qed.

End Outcomes.

(** X9.  Whatever the model answers, it receives the composed prompt and
    nothing else: the session holds exactly the messages of the trace, and
    that is the prompt alone (the tool's result never reaches the model). *)
Theorem model_receives_prompt_only
    (json_loads : string -> option json)
    (model : list outgoing -> exn + GenerateContentResponse)
    (request : ItineraryRequest) :
  let w := snd (generate_itinerary json_loads model request initial_world) in
  session w = sent (trace w) /\
  session w = [SendContent (compose_prompt request)].
Proof.
  cbv zeta.
  destruct (generate_itinerary_outcomes json_loads model request)
    as (w & Hw & [(it & _ & ->)|(e & _ & ->)]);
    destruct Hw as [->|[v ->]]; (split; reflexivity).
Qed.

(** X10.  The error line is printed exactly when the request fails: a
    successful run prints none, a failed run prints one, as its last effect,
    and it carries the exception that the [try] block raised. *)
Theorem error_line_iff_failure
    (json_loads : string -> option json)
    (model : list outgoing -> exn + GenerateContentResponse)
    (request : ItineraryRequest) :
  let run := generate_itinerary json_loads model request initial_world in
  (exists it, fst run = inr it /\ count is_error_line (trace (snd run)) = 0) \/
  (exists e w,
     exchange json_loads model (compose_prompt request) initial_world = (inl e, w) /\
     fst run = inl (HTTPException 500 failure_detail) /\
     trace (snd run) = trace w ++ [EvErrorLine e] /\
     count is_error_line (trace w) = 0).
Proof.
  cbv zeta.
  destruct (generate_itinerary_outcomes json_loads model request)
    as (w & Hw & [(it & _ & ->)|(e & He & ->)]).
  - left. exists it. split; [reflexivity|].
    destruct Hw as [->|[v ->]]; reflexivity.
  - right. exists e, w. split; [exact He|]. split; [reflexivity|].
    split; [reflexivity|].
    destruct Hw as [->|[v ->]]; reflexivity.
Qed.

(** X11.  A reply whose first part is a function call never leads to an
    itinerary, whatever the call and whatever else the reply holds: a call
    of [perform_web_search] raises in the tool round, and for any other
    call the text of the reply cannot be read.  The request then ends in
    the generic failure, and the model has received the prompt alone. *)
Theorem function_call_reply_never_succeeds
    (json_loads : string -> option json)
    (model : list outgoing -> exn + GenerateContentResponse)
    (request : ItineraryRequest) (resp : GenerateContentResponse) (fc : FunctionCall) :
  model [SendContent (compose_prompt request)] = inr resp ->
  first_part resp = Some (Part_function_call fc) ->
  let run := generate_itinerary json_loads model request initial_world in
  fst run = inl (HTTPException 500 failure_detail) /\
  post_generate json_loads model request = generic_failure /\
  session (snd run) = [SendContent (compose_prompt request)] /\
  (name fc <> "perform_web_search" ->
   text resp = inl ValueError /\
   run = (inl (HTTPException 500 failure_detail),
          {| session := [SendContent (compose_prompt request)];
             trace := [EvSendMessage (SendContent (compose_prompt request));
                       EvErrorLine ValueError] |})).
Proof.
  intros Hm Hfp. cbv zeta.
  assert (Hraise : exists e w,
            exchange json_loads model (compose_prompt request) initial_world = (inl e, w) /\
            session w = [SendContent (compose_prompt request)]).
  { destruct (String.eqb (name fc) "perform_web_search") eqn:Hn.
    - apply String.eqb_eq in Hn.
      destruct (tool_round_raises model fc
                  (after_send (SendContent (compose_prompt request)) initial_world))
        as [H|(e & v & H)]; eexists _, _;
        (split; [apply (exchange_tool_failure json_loads _ _ _ _ _ _ Hm Hfp Hn H)
                |reflexivity]).
    - apply String.eqb_neq in Hn. eexists _, _. split.
      + rewrite (exchange_direct json_loads _ _ _ _ Hm Hfp Hn).
        apply final_answer_no_text, (text_of_function_call _ _ Hfp).
      + reflexivity. }
  destruct Hraise as (e & w & He & Hs).
  destruct (generate_itinerary_failure _ _ _ _ _ He) as [Hrun Hpost].
  rewrite Hrun. split; [reflexivity|]. split; [exact Hpost|].
  split; [exact Hs|]. intros Hn.
  split; [apply (text_of_function_call _ _ Hfp)|].
  rewrite (exchange_direct json_loads _ _ _ _ Hm Hfp Hn) in He.
  rewrite (final_answer_no_text json_loads _ _ _ (text_of_function_call _ _ Hfp)) in He.
  injection He as <- <-. reflexivity.
Qed.

Lemma function_call_reply_witness :
  (let run := generate_itinerary reference_json_loads
                (model_tool {[ "query" := JStr kyoto_query ]} sample_text)
                sample_request initial_world in
   fst run = inl (HTTPException 500 failure_detail) /\
   post_generate reference_json_loads
     (model_tool {[ "query" := JStr kyoto_query ]} sample_text) sample_request
     = generic_failure /\
   session (snd run) = [SendContent (compose_prompt sample_request)]) /\
  (text (other_call_reply sample_text) = inl ValueError /\
   post_generate reference_json_loads (model_other_call sample_text) sample_request
     = generic_failure /\
   generate_itinerary reference_json_loads (model_other_call sample_text)
     sample_request initial_world =
   (inl (HTTPException 500 failure_detail),
    {| session := [SendContent (compose_prompt sample_request)];
       trace := [EvSendMessage (SendContent (compose_prompt sample_request));
                 EvErrorLine ValueError] |})).
Proof.
  split.
  - destruct (function_call_reply_never_succeeds reference_json_loads
                (model_tool {[ "query" := JStr kyoto_query ]} sample_text)
                sample_request (tool_request {[ "query" := JStr kyoto_query ]})
                {| name := "perform_web_search";
                   args := {[ "query" := JStr kyoto_query ]} |}
                eq_refl eq_refl) as (H1 & H2 & H3 & _).
    repeat split; assumption.
  - destruct (function_call_reply_never_succeeds reference_json_loads
                (model_other_call sample_text) sample_request
                (other_call_reply sample_text) other_call
                eq_refl eq_refl) as (_ & H2 & _ & H4).
    destruct H4 as [Ht Hrun]; [discriminate|].
    repeat split; assumption.
Defined.

(** X12.  The response to a request that has reached the handler (its body
    passed request validation).  The status is 200 exactly when the model's
    reply to the prompt has a text that decodes to a JSON value spelling an
    itinerary, and the body is then the serialization of that itinerary,
    with the four declared keys in declaration order; in every other case
    the response is status 500 with the generic detail. *)
Theorem handler_response_cases
    (json_loads : string -> option json)
    (model : list outgoing -> exn + GenerateContentResponse)
    (request : ItineraryRequest) :
  let p_text := compose_prompt request in
  let post := post_generate json_loads model request in
  (forall status body,
     post = Response status body ->
     status = 200%Z \/ status = 500%Z /\ body = failure_body) /\
  (forall body,
     post = Response 200 body <->
     exists resp s j it,
       model [SendContent p_text] = inr resp /\ text resp = inr s /\
       json_loads s = Some j /\ itinerary_of j it /\ body = model_dump it) /\
  (forall it,
     post = Response 200 (model_dump it) ->
     keys (model_dump it) = Itinerary_fields /\
     validate_Itinerary (model_dump it) = Some it /\
     fst (generate_itinerary json_loads model request initial_world) = inr it) /\
  (post = generic_failure <->
   forall resp s j it,
     model [SendContent p_text] = inr resp -> text resp = inr s ->
     json_loads s = Some j -> ~ itinerary_of j it).
Proof.
  cbv zeta.
  destruct (exchange json_loads model (compose_prompt request) initial_world)
    as [[e|it] w] eqn:E.
  - destruct (generate_itinerary_failure _ _ _ _ _ E) as [Hrun Hpost].
    rewrite Hpost.
    assert (Hno : forall resp s j it,
              model [SendContent (compose_prompt request)] = inr resp ->
              text resp = inr s -> json_loads s = Some j -> ~ itinerary_of j it).
    { intros resp s j it Hm Ht Hj Hof. apply validate_itinerary_spells in Hof.
      rewrite (exchange_spelled json_loads _ _ _ _ _ _ Hm Ht Hj Hof) in E.
      discriminate. }
    split; [|split; [|split; [|split]]].
    + intros status body [= <- <-]. right. split; reflexivity.
    + intros body. split; [discriminate|].
      intros (resp & s & j & it & Hm & Ht & Hj & Hof & _).
      destruct (Hno _ _ _ _ Hm Ht Hj Hof).
    + discriminate.
    + intros _. exact Hno.
    + reflexivity.
  - destruct (generate_itinerary_success _ _ _ _ _ E) as [Hrun Hpost].
    rewrite Hpost, Hrun.
    destruct (exchange_inr _ _ _ _ _ E) as (resp & s & j & Hm & Ht & Hj & Hv).
    split; [|split; [|split; [|split]]].
    + intros status body [= <- <-]. now left.
    + intros body. split.
      * intros [= <-]. exists resp, s, j, it.
        repeat split; try assumption. now apply validate_itinerary_spells.
      * intros (resp' & s' & j' & it' & Hm' & Ht' & Hj' & Hof' & ->).
        rewrite Hm in Hm'. injection Hm' as <-.
        rewrite Ht in Ht'. injection Ht' as <-.
        rewrite Hj in Hj'. injection Hj' as <-.
        apply validate_itinerary_spells in Hof'.
        rewrite Hv in Hof'. now injection Hof' as <-.
    + intros it0 H0.
      assert (Hd : model_dump it = model_dump it0)
        by exact (f_equal (fun r => match r with Response _ b => b end) H0).
      assert (Hit : Some it = Some it0).
      { rewrite <- (validate_model_dump it), <- (validate_model_dump it0).
        now rewrite Hd. }
      injection Hit as <-.
      split; [reflexivity|]. split; [apply validate_model_dump|reflexivity].
    + discriminate.
    + intros Hno. exfalso.
      apply (Hno resp s j it Hm Ht Hj). now apply validate_itinerary_spells.
Qed.

(** ** Request validation (lines 14-17 and 67-68) *)

Lemma mapM_as_dict (l : list json) (h : list (list (string * json))) :
  mapM as_dict l = Some h <-> l = map JDict h.
Proof.
  split.
  - revert h. induction l as [|x l IH]; intros h H.
    + injection H as <-. reflexivity.
    + cbn in H. destruct x as [| | | | | |d]; try discriminate. cbn in H.
      destruct (mapM as_dict l) as [h'|]; [|discriminate].
      injection H as <-. cbn. now rewrite (IH h' eq_refl).
  - intros ->. induction h as [|d h IH]; [reflexivity|].
    cbn. cbn in IH. now rewrite IH.
Qed.

Lemma validate_history_spells (o : list (string * json))
    (h : list (list (string * json))) :
  validate_history o = Some h <->
  match dict_get "history" o with
  | None => h = []
  | Some v => v = JList (map JDict h)
  end.
Proof.
  unfold validate_history. destruct (dict_get "history" o) as [v|].
  - destruct v as [| | | | |l|]; cbn; try (split; discriminate).
    rewrite mapM_as_dict. split; congruence.
  - split; congruence.
Qed.

Lemma validate_currentItinerary_spells (o : list (string * json))
    (c : option (list (string * json))) :
  validate_currentItinerary o = Some c <->
  match dict_get "currentItinerary" o with
  | None => c = None
  | Some JNull => c = None
  | Some v => exists d, v = JDict d /\ c = Some d
  end.
Proof.
  unfold validate_currentItinerary.
  destruct (dict_get "currentItinerary" o) as [v|]; [|split; congruence].
  destruct v as [| | | | | |d]; cbn;
    try (split; [discriminate|intros (d & Hd & _); discriminate]);
    try (split; congruence).
  split.
  - intros [= <-]. now exists d.
  - intros (d' & [= <-] & ->). reflexivity.
Qed.

Lemma validate_request_spells (j : json) (r : ItineraryRequest) :
  validate_ItineraryRequest j = Some r <-> request_of j r.
Proof.
  unfold validate_ItineraryRequest, request_of. split.
  - intros H. destruct j as [| | | | | |o]; try discriminate. cbn in H.
    destruct (str_field "prompt" o) as [p|] eqn:Hp; [|discriminate]. cbn in H.
    destruct (validate_history o) as [h|] eqn:Hh; [|discriminate]. cbn in H.
    destruct (validate_currentItinerary o) as [c|] eqn:Hc; [|discriminate].
    injection H as <-. exists o. cbn [prompt history currentItinerary].
    split; [reflexivity|]. split; [now apply str_field_inv|].
    split; [now apply validate_history_spells
           |now apply validate_currentItinerary_spells].
  - intros (o & -> & Hp & Hh & Hc). cbn.
    rewrite (str_field_intro _ _ _ Hp). cbn.
    apply validate_history_spells in Hh. rewrite Hh. cbn.
    apply validate_currentItinerary_spells in Hc. rewrite Hc. cbn.
    now destruct r.
Qed.

Lemma dict_get_app_other (k k' : string) (v : json) (o : list (string * json)) :
  k <> k' -> dict_get k (o ++ [(k', v)]) = dict_get k o.
Proof.
  intros Hk. induction o as [|[k1 v1] o IH]; cbn.
  - apply String.eqb_neq in Hk. now rewrite Hk.
  - now rewrite IH.
Qed.

Lemma generate_itinerary_result (json_loads : string -> option json)
    (model : list outgoing -> exn + GenerateContentResponse) (r : ItineraryRequest) :
  (exists it, fst (generate_itinerary json_loads model r initial_world) = inr it) \/
  fst (generate_itinerary json_loads model r initial_world)
    = inl (HTTPException 500 failure_detail).
Proof.
  destruct (generate_itinerary_outcomes json_loads model r)
    as (w & _ & [(it & _ & ->)|(e & _ & ->)]); [left; now exists it|now right].
Qed.


